(** * io_scs_tools/utils/curve.py: navigation-curve mathematics

    A shallow embedding of the curve helpers of the SCS Blender tools
    (forward vector to Euler angles, cubic Bezier evaluation, arc-length
    estimation by sampling, curve discretisation and planar curve
    intersection) together with the properties their specification states.

    Number model.  Python [float] values are modelled by the real numbers
    [R] of the Standard Library and Python [int] values by [Z]; rounding,
    overflow, infinities and NaN are outside the model.  True division
    raises [ZeroDivisionError] on a zero divisor, as Python does, and the
    functions that divide return a [result].

    Rounding decides one property, the upper end of the yaw range of
    [set_direction]; for it the function is modelled a second time on
    binary64 numbers, in [Binary64]. *)

From Stdlib Require Import Reals Lra Psatz ZArith Lia List Bool.
From Stdlib Require PrimFloat.
Import ListNotations.

Open Scope bool_scope.
Open Scope R_scope.

(** ** The fragment of Python the module relies on *)

Module Py.

Inductive exn : Type :=
| ZeroDivisionError.

Inductive result (A : Type) : Type :=
| Ok (a : A)
| Raise (e : exn).

Arguments Ok {A} a.
Arguments Raise {A} e.

Definition bind {A B : Type} (m : result A) (k : A -> result B) : result B :=
  match m with
  | Ok a => k a
  | Raise e => Raise e
  end.

(** [a / b] on numbers. *)
Definition truediv (a b : R) : result R :=
  if Req_dec_T b 0 then Raise ZeroDivisionError else Ok (a / b).

(** [range(n)]: empty when [n <= 0]. *)
Definition range (n : Z) : list Z :=
  map Z.of_nat (seq 0 (Z.to_nat n)).

(** What one iteration of a loop body does to the loop: it falls through
    (or executes [continue]) with the updated loop state, or it leaves the
    enclosing function through [return]. *)
Inductive flow (S A : Type) : Type :=
| Continue (s : S)
| Return (a : A).

Arguments Continue {S A} s.
Arguments Return {S A} a.

(** [for x in xs: body], where the body may raise or return. *)
Fixpoint for_each {I S A : Type} (body : I -> S -> result (flow S A))
         (xs : list I) (s : S) : result (flow S A) :=
  match xs with
  | [] => Ok (Continue s)
  | x :: xs' =>
      match body x s with
      | Ok (Continue s') => for_each body xs' s'
      | Ok (Return a) => Ok (Return a)
      | Raise e => Raise e
      end
  end.

(** Comparisons of numbers as truth values. *)
Definition ltb (a b : R) : bool := if Rlt_dec a b then true else false.
Definition gtb (a b : R) : bool := if Rgt_dec a b then true else false.

(** [math.fabs], [abs], [math.sqrt], [math.degrees]. *)
Definition fabs (x : R) : R := Rabs x.
Definition degrees (x : R) : R := x * (180 / PI).

End Py.

Import Py.

Declare Scope py_scope.
Delimit Scope py_scope with py.
Notation "x <- m ;; k" := (bind m (fun x => k))
  (at level 61, m at next level, right associativity) : py_scope.
Notation "a <? b" := (ltb a b) : py_scope.
Notation "a >? b" := (gtb a b) : py_scope.
Open Scope py_scope.

(** ** mathutils.Vector, as far as the module uses it *)

Module Vector.

Record t : Type := mk { x : R; y : R; z : R }.

(** [v[i]] for [i] in 0, 1, 2. *)
Definition get (v : t) (i : nat) : R :=
  match i with
  | O => x v
  | S O => y v
  | _ => z v
  end.

Definition add (a b : t) : t := mk (x a + x b) (y a + y b) (z a + z b).
Definition sub (a b : t) : t := mk (x a - x b) (y a - y b) (z a - z b).
Definition scale (a : t) (k : R) : t := mk (x a * k) (y a * k) (z a * k).

(** [v.length] *)
Definition length (v : t) : R := sqrt (x v * x v + y v * y v + z v * z v).

End Vector.

Definition Vec : Type := Vector.t.
Notation "v .[ i ]" := (Vector.get v i) (at level 1, format "v .[ i ]") : py_scope.
Infix "+v" := Vector.add (at level 50, left associativity) : py_scope.
Infix "-v" := Vector.sub (at level 50, left associativity) : py_scope.
Infix "*v" := Vector.scale (at level 40, left associativity) : py_scope.

(** ** set_direction *)

Definition epsilon_direction : R := 0.0001.

Definition v_clamp (num minimum maximum : R) : R :=
  if num <? minimum then minimum
  else if num >? maximum then maximum
  else num.

(** The local [length] helper of [set_direction]. *)
Definition length (vec : Vec) : R :=
  sqrt (vec.[0] * vec.[0] + vec.[1] * vec.[1] + vec.[2] * vec.[2]).

(** Returns [(pitch, roll, yaw)]. *)
Definition set_direction (forward : Vec) : result (R * R * R) :=
  let epsilon := epsilon_direction in
  let length := length forward in
  if length <? epsilon then Ok (0, 0, 0)
  else
    let roll := 0 in
    q <- truediv forward.[1] length ;;
    let pitch := degrees (asin (v_clamp q (-1) 1)) in
    if fabs forward.[2] <? epsilon then
      if forward.[0] <? 0 then Ok (pitch, roll, 90)
      else if forward.[0] >? 0 then Ok (pitch, roll, 270)
      else Ok (pitch, roll, 0)
    else
      r <- truediv forward.[0] forward.[2] ;;
      let angle := degrees (atan r) in
      let yaw :=
        if forward.[2] <? 0 then
          let angle_bound := if angle <? 0 then 360 else 0 in
          angle + angle_bound
        else angle + 180 in
      Ok (pitch, roll, yaw).

(** ** set_direction on binary64 numbers *)

Module Binary64.

Import PrimFloat.
Local Open Scope float_scope.

(** The literals of the source and the value of [math.pi], each written as
    the binary64 number Python reads: 0.0001 and 3.141592653589793. *)
Definition epsilon : float := 0x1.a36e2eb1c432dp-14.
Definition pi : float := 0x1.921fb54442d18p+1.

(** [a / b] on floats. *)
Definition truediv (a b : float) : result float :=
  if b =? 0 then Raise ZeroDivisionError else Ok (a / b).

(** [math.degrees]: [x * (180.0 / pi)]. *)
Definition degrees (x : float) : float := x * (180 / pi).

(** [a > b] is written [b <? a]. *)
Definition v_clamp (num minimum maximum : float) : float :=
  if num <? minimum then minimum
  else if maximum <? num then maximum
  else num.

Definition length (vec : float * float * float) : float :=
  let '(x, y, z) := vec in sqrt (x * x + y * y + z * z).

Section Libm.

(** [math.asin] and [math.atan] come from the C library. *)
Variables asin atan : float -> float.

(** Returns [(pitch, roll, yaw)]. *)
Definition set_direction (forward : float * float * float)
  : result (float * float * float) :=
  let '(forward0, forward1, forward2) := forward in
  let length := length forward in
  if length <? epsilon then Ok (0, 0, 0)
  else
    let roll := 0 in
    q <- truediv forward1 length ;;
    let pitch := degrees (asin (v_clamp q (-1) 1)) in
    if abs forward2 <? epsilon then
      if forward0 <? 0 then Ok (pitch, roll, 90)
      else if 0 <? forward0 then Ok (pitch, roll, 270)
      else Ok (pitch, roll, 0)
    else
      r <- truediv forward0 forward2 ;;
      let angle := degrees (atan r) in
      let yaw :=
        if forward2 <? 0 then
          let angle_bound := if angle <? 0 then 360 else 0 in
          angle + angle_bound
        else angle + 180 in
      Ok (pitch, roll, yaw).

End Libm.

(** A forward vector pointing along -z, a hair towards +x:
    [(1e-20, 0.0, -1.0)]; and the numbers 1e-20, 0.0 and 360.0. *)
Definition tiny : float := 0x1.79ca10c924223p-67.
Definition zero : float := 0.
Definition full_turn : float := 360.
Definition nearly_south : float * float * float := (tiny, 0, -1).

End Binary64.

(** ** compute_bernstein, evaluate_bezier_curve, smooth_curve *)

Definition compute_bernstein (float_t : R) : R * R * R * R :=
  let q := 1 - float_t in
  let f1 := q * q * q in
  let f2 := 3 * float_t * q * q in
  let f3 := 3 * float_t * float_t * q in
  let f4 := float_t * float_t * float_t in
  (f1, f2, f3, f4).

Definition evaluate_bezier_curve (vec1 vec2 vec3 vec4 : Vec) (float_t : R) : Vec :=
  let '(c0, c1, c2, c3) := compute_bernstein float_t in
  let f1 := c0 * vec1.[0] + c1 * vec2.[0] + c2 * vec3.[0] + c3 * vec4.[0] in
  let f2 := c0 * vec1.[1] + c1 * vec2.[1] + c2 * vec3.[1] + c3 * vec4.[1] in
  let f3 := c0 * vec1.[2] + c1 * vec2.[2] + c2 * vec3.[2] + c3 * vec4.[2] in
  Vector.mk f1 f2 f3.

Definition smooth_curve (point1 tang1 point2 tang2 : Vec) (coef : R) : Vec :=
  let pp1 := point1 in
  let pp2 := point1 +v tang1 in
  let pp3 := point2 -v tang2 in
  let pp4 := point2 in
  let pos := evaluate_bezier_curve pp1 pp2 pp3 pp4 coef in
  pos.

(** ** compute_smooth_curve_length *)

(** The loop state is [(lenth, start_pos, coef)]. *)
Definition measure_body (point1 tang1 point2 tang2 : Vec) (step_size : R)
           (st : R * Vec * R) (ii : Z) : R * Vec * R :=
  let '(lenth, start_pos, coef) := st in
  let cpos := smooth_curve point1 tang1 point2 tang2 coef in
  let le := start_pos -v cpos in
  (lenth + Vector.length le, cpos, coef + step_size).

Definition compute_smooth_curve_length (point1 tang1 point2 tang2 : Vec)
           (measure_steps : Z) : result R :=
  step_size <- truediv 1 (IZR measure_steps) ;;
  let coef := step_size in
  let lenth := 0 in
  let start_pos := point1 in
  let '(lenth, _, _) :=
    fold_left (measure_body point1 tang1 point2 tang2 step_size)
              (range measure_steps) (lenth, start_pos, coef) in
  Ok lenth.

(** ** compute_curve *)

Record curve_data : Type := { curve_points : list Vec }.

Section ComputeCurve.

(** Blender objects, and [obj.matrix_world.to_quaternion() * Vector((0, 1, 0))]:
    the rotation is done by Blender, outside this module. *)
Variable object : Type.
Variable rotated_y_axis : object -> Vec.

(** The loop state is the list [curve_data['curve_points']]. *)
Definition curve_body (point1 tang1 point2 tang2 : Vec) (le : R) (curve_steps : Z)
           (segment : Z) (points : list Vec) : result (flow (list Vec) curve_data) :=
  coef <- truediv (IZR segment) (IZR curve_steps) ;;
  let pos := smooth_curve point1 (tang1 *v (le / 3)) point2 (tang2 *v (le / 3)) coef in
  Ok (Continue (points ++ [pos])).

Definition compute_curve (obj_0 : object) (point1 : Vec) (obj_1 : object)
           (point2 : Vec) (curve_steps : Z) : result curve_data :=
  let tang1 := rotated_y_axis obj_0 in
  let tang2 := rotated_y_axis obj_1 in
  le <- compute_smooth_curve_length point1 tang1 point2 tang2 300 ;;
  r <- for_each (curve_body point1 tang1 point2 tang2 le curve_steps)
                (range curve_steps) [] ;;
  match r with
  | Continue points => Ok {| curve_points := points ++ [point2] |}
  | Return d => Ok d
  end.

End ComputeCurve.

(** ** curves_intersect *)

(** The part of a navigation-curve section that [curves_intersect] reads:
    the "Length" property and the position and direction of the "Start" and
    "End" sections of its "Bezier" section. *)
Record SectionData : Type := {
  Length : R;
  Start_Position : Vec;
  Start_Direction : Vec;
  End_Position : Vec;
  End_Direction : Vec
}.

Definition epsilon_intersect : R := 0.01.

(** The two curve parameters handed to [smooth_curve] for the chord that
    starts at [pos]: [pos / length] and [(pos + step) / length]. *)
Definition chord_params (length step pos : R) : result (R * R) :=
  a <- truediv pos length ;;
  b <- truediv (pos + step) length ;;
  Ok (a, b).

(** [start] and [end] of a chord. *)
Definition chord (curve : SectionData) (length step pos : R) : result (Vec * Vec) :=
  let point1 := Start_Position curve in
  let tang1 := Start_Direction curve in
  let point2 := End_Position curve in
  let tang2 := End_Direction curve in
  ab <- chord_params length step pos ;;
  Ok (smooth_curve point1 tang1 point2 tang2 (fst ab),
      smooth_curve point1 tang1 point2 tang2 (snd ab)).

Definition denom_of (start1 end1 start2 end2 : Vec) : R :=
  ((end2.[2] - start2.[2]) * (end1.[0] - start1.[0]))
  - ((end2.[0] - start2.[0]) * (end1.[2] - start1.[2])).

Definition nume_a_of (start1 end1 start2 end2 : Vec) : R :=
  ((end2.[0] - start2.[0]) * (start1.[2] - start2.[2]))
  - ((end2.[2] - start2.[2]) * (start1.[0] - start2.[0])).

Definition nume_b_of (start1 end1 start2 end2 : Vec) : R :=
  ((end1.[0] - start1.[0]) * (start1.[2] - start2.[2]))
  - ((end1.[2] - start1.[2]) * (start1.[0] - start2.[0])).

(** The test of one chord pair, from the computation of [denom] on.  The
    loop state is [pos2], already advanced when the test starts. *)
Definition chord_pair_test (part_count i j : Z) (start1 end1 start2 end2 : Vec)
           (pos2 : R) : result (flow R (option Vec)) :=
  let epsilon := epsilon_intersect in
  let denom := denom_of start1 end1 start2 end2 in
  let nume_a := nume_a_of start1 end1 start2 end2 in
  let nume_b := nume_b_of start1 end1 start2 end2 in
  if fabs denom <? epsilon then Ok (Continue pos2)
  else
    mu_a <- truediv nume_a denom ;;
    mu_b <- truediv nume_b denom ;;
    if (mu_a <? 0) || (mu_a >? 1) || (mu_b <? 0) || (mu_b >? 1) then Ok (Continue pos2)
    else if ((mu_a <? epsilon) && (i =? 0)%Z) || ((mu_b <? epsilon) && (j =? 0)%Z)
    then Ok (Return None)
    else if ((mu_a >? 1 - epsilon) && (i =? part_count - 1)%Z)
            || ((mu_b >? 1 - epsilon) && (j =? part_count - 1)%Z)
    then Ok (Return None)
    else
      Ok (Return (Some (Vector.mk
                          (start1.[0] + mu_a * (end1.[0] - start1.[0]))
                          ((start1.[1] + end1.[1] + start2.[1] + end2.[1]) / 4)
                          (start1.[2] + mu_a * (end1.[2] - start1.[2]))))).

(** Body of the loop over [j]. *)
Definition inner_body (curve2 : SectionData) (length2 step2 : R) (part_count i : Z)
           (start1 end1 : Vec) (j : Z) (pos2 : R) : result (flow R (option Vec)) :=
  se2 <- chord curve2 length2 step2 pos2 ;;
  let '(start2, end2) := se2 in
  let pos2 := pos2 + step2 in
  chord_pair_test part_count i j start1 end1 start2 end2 pos2.

(** Body of the loop over [i]; the loop state is [pos1]. *)
Definition outer_body (curve1 curve2 : SectionData) (length1 length2 step1 step2 : R)
           (part_count : Z) (i : Z) (pos1 : R) : result (flow R (option Vec)) :=
  se1 <- chord curve1 length1 step1 pos1 ;;
  let '(start1, end1) := se1 in
  let pos2 := 0 in
  r <- for_each (inner_body curve2 length2 step2 part_count i start1 end1)
                (range part_count) pos2 ;;
  match r with
  | Continue _ => Ok (Continue (pos1 + step1))
  | Return v => Ok (Return v)
  end.

Definition curves_intersect (curve1 curve2 : SectionData) (part_count : Z)
  : result (option Vec) :=
  let length1 := Length curve1 in
  let length2 := Length curve2 in
  step1 <- truediv length1 (IZR part_count) ;;
  step2 <- truediv length2 (IZR part_count) ;;
  let pos1 := 0 in
  r <- for_each (outer_body curve1 curve2 length1 length2 step1 step2 part_count)
                (range part_count) pos1 ;;
  match r with
  | Continue _ => Ok None
  | Return v => Ok v
  end.

(** ** compute_curve_intersections *)

(** [range(lo, hi)]. *)
Definition range_between (lo hi : Z) : list Z :=
  map (fun k => (lo + Z.of_nat k)%Z) (seq 0 (Z.to_nat (hi - lo))).

(** [enumerate(xs)]. *)
Definition enumerate {A : Type} (xs : list A) : list (Z * A) :=
  combine (range (Z.of_nat (List.length xs))) xs.

(** The value of a property, as far as the test [value != -1] tells values
    apart: an int, a float, or a sequence (which is never equal to an int). *)
Inductive prop_value : Type :=
| IntValue (n : Z)
| FloatValue (r : R)
| SeqValue (items : list Z).

(** [value != -1] *)
Definition ne_minus_one (value : prop_value) : bool :=
  match value with
  | IntValue n => negb (n =? -1)%Z
  | FloatValue r => if Req_dec_T r (-1) then false else true
  | SeqValue _ => true
  end.

(** A navigation-curve section as [compute_curve_intersections] reads it:
    what [curves_intersect] reads, and the "NextCurves" and "PrevCurves"
    properties. *)
Record NavCurveSection : Type := {
  curve : SectionData;
  NextCurves : prop_value;
  PrevCurves : prop_value
}.

(** The tuples of the result: [(section, None, 0)] in the START and END
    lists, [(section, curve_to_test, curve_intersect)] in the CROSS list. *)
Definition entry : Type := NavCurveSection * option NavCurveSection * (Z + Vec).

(** The dictionary [curve_dict], with its three keys. *)
Record CurveDict : Type := {
  START : list entry;
  END : list entry;
  CROSS : list entry
}.

Definition append_START (d : CurveDict) (e : entry) : CurveDict :=
  {| START := START d ++ [e]; END := END d; CROSS := CROSS d |}.

Definition append_END (d : CurveDict) (e : entry) : CurveDict :=
  {| START := START d; END := END d ++ [e]; CROSS := CROSS d |}.

Definition append_CROSS (d : CurveDict) (e : entry) : CurveDict :=
  {| START := START d; END := END d; CROSS := CROSS d ++ [e] |}.

(** Body of the loop over [curve_index].  The loop state is [curve_dict] and
    the values printed so far (each is printed through [str]; what was printed
    before an exception is not kept).  The subscript [curve_index] comes from
    [range(i + 1, len(nav_curve_sections))] and is always inside the list, so
    the default of [nth] is never used.  A [Vector] is true whatever its
    coordinates (its length is 3), so [if curve_intersect] only tells [None]
    from a point. *)
Definition cross_body (nav_curve_sections : list NavCurveSection)
           (nav_curve_section : NavCurveSection) (curve_index : Z)
           (st : CurveDict * list (option Vec))
  : result (flow (CurveDict * list (option Vec)) Empty_set) :=
  let '(curve_dict, printed) := st in
  let curve_to_test := nth (Z.to_nat curve_index) nav_curve_sections nav_curve_section in
  curve_intersect <- curves_intersect (curve nav_curve_section) (curve curve_to_test) 10 ;;
  let printed := printed ++ [curve_intersect] in
  match curve_intersect with
  | Some point =>
      Ok (Continue (append_CROSS curve_dict
                                 (nav_curve_section, Some curve_to_test, inr point),
                    printed))
  | None => Ok (Continue (curve_dict, printed))
  end.

(** Body of the loop over [enumerate(nav_curve_sections)]. *)
Definition section_body (nav_curve_sections : list NavCurveSection)
           (item : Z * NavCurveSection) (st : CurveDict * list (option Vec))
  : result (flow (CurveDict * list (option Vec)) Empty_set) :=
  let '(nav_curve_section_i, nav_curve_section) := item in
  let '(curve_dict, printed) := st in
  let curve_dict :=
    if ne_minus_one (NextCurves nav_curve_section)
    then append_START curve_dict (nav_curve_section, None, inl 0%Z)
    else curve_dict in
  let curve_dict :=
    if ne_minus_one (PrevCurves nav_curve_section)
    then append_END curve_dict (nav_curve_section, None, inl 0%Z)
    else curve_dict in
  for_each (cross_body nav_curve_sections nav_curve_section)
           (range_between (nav_curve_section_i + 1)
                          (Z.of_nat (List.length nav_curve_sections)))
           (curve_dict, printed).

(** Returns [curve_dict] and the values printed on the way. *)
Definition compute_curve_intersections (nav_curve_sections : list NavCurveSection)
  : result (CurveDict * list (option Vec)) :=
  let curve_dict := {| START := []; END := []; CROSS := [] |} in
  r <- for_each (section_body nav_curve_sections)
                (enumerate nav_curve_sections) (curve_dict, []) ;;
  match r with
  | Continue st => Ok st
  | Return e => match e with end
  end.

(** ** Vocabulary of the statements *)

Definition min4 (a b c d : R) : R := Rmin (Rmin a b) (Rmin c d).
Definition max4 (a b c d : R) : R := Rmax (Rmax a b) (Rmax c d).

Definition origin : Vec := Vector.mk 0 0 0.

Definition flat_curve : SectionData :=
  {| Length := 1;
     Start_Position := origin;
     Start_Direction := Vector.mk 1 0 0;
     End_Position := Vector.mk 3 0 0;
     End_Direction := Vector.mk 1 0 0 |}.

(** The value of [pos1] (or [pos2]) at the start of iteration [n]: it starts
    at 0 and every completed iteration adds the step to it. *)
Definition pos_at (step : R) (n : nat) : R :=
  Nat.iter n (fun pos => pos + step) 0.

Definition mu_a_of (start1 end1 start2 end2 : Vec) : R :=
  nume_a_of start1 end1 start2 end2 / denom_of start1 end1 start2 end2.

Definition mu_b_of (start1 end1 start2 end2 : Vec) : R :=
  nume_b_of start1 end1 start2 end2 / denom_of start1 end1 start2 end2.

(** The chord pair is passed over by one of the two [continue] statements. *)
Definition skipped (start1 end1 start2 end2 : Vec) : Prop :=
  Rabs (denom_of start1 end1 start2 end2) < 0.01
  \/ mu_a_of start1 end1 start2 end2 < 0
  \/ mu_a_of start1 end1 start2 end2 > 1
  \/ mu_b_of start1 end1 start2 end2 < 0
  \/ mu_b_of start1 end1 start2 end2 > 1.

(** The chords cross: [|denom| >= 0.01] and both [mu_a] and [mu_b] in [0, 1]. *)
Definition qualifying (start1 end1 start2 end2 : Vec) : Prop :=
  Rabs (denom_of start1 end1 start2 end2) >= 0.01
  /\ 0 <= mu_a_of start1 end1 start2 end2 <= 1
  /\ 0 <= mu_b_of start1 end1 start2 end2 <= 1.

(** The crossing is at the start of the first chord, or at the end of the
    last chord, of one of the two curves. *)
Definition at_boundary (part_count i j : Z) (start1 end1 start2 end2 : Vec) : Prop :=
  (mu_a_of start1 end1 start2 end2 < 0.01 /\ i = 0%Z)
  \/ (mu_b_of start1 end1 start2 end2 < 0.01 /\ j = 0%Z)
  \/ (mu_a_of start1 end1 start2 end2 > 0.99 /\ i = (part_count - 1)%Z)
  \/ (mu_b_of start1 end1 start2 end2 > 0.99 /\ j = (part_count - 1)%Z).

(** Chord pair [(i', j')] comes before [(i, j)] in the order of the scan. *)
Definition scanned_before (i' j' i j : nat) : Prop :=
  (i' < i)%nat \/ (i' = i /\ j' < j)%nat.

(** Two straight curves: [curve_east] runs from the origin along the x axis,
    [curve_north] crosses the x axis at the origin, the start of [curve_east]. *)
Definition curve_east : SectionData :=
  {| Length := 1;
     Start_Position := Vector.mk 0 0 0;
     Start_Direction := Vector.mk 0 0 0;
     End_Position := Vector.mk 1 0 0;
     End_Direction := Vector.mk 0 0 0 |}.

Definition curve_north : SectionData :=
  {| Length := 2;
     Start_Position := Vector.mk 0 0 (-1);
     Start_Direction := Vector.mk 0 0 0;
     End_Position := Vector.mk 0 0 1;
     End_Direction := Vector.mk 0 0 0 |}.

Definition dot (u w : Vec) : R :=
  Vector.x u * Vector.x w + Vector.y u * Vector.y w + Vector.z u * Vector.z w.

(** The distance the loop of [compute_smooth_curve_length] adds:
    [(start_pos - cpos).length]. *)
Definition dist (a b : Vec) : R := Vector.length (a -v b).

(** Length of the polyline through [g a], [g (a + 1)], ..., [g (a + m)]. *)
Fixpoint chain (g : nat -> Vec) (a m : nat) : R :=
  match m with
  | O => 0
  | S m' => dist (g a) (g (S a)) + chain g (S a) m'
  end.

(** A curve that leaves the origin along the x axis and comes back to it. *)
Definition tang_out : Vec := Vector.mk 1 0 0.
Definition tang_back : Vec := Vector.mk (-1) 0 0.

(** The [i]-th sample point of [compute_smooth_curve_length] for step size
    [h]; sample 0 is [point1]. *)
Definition sample (point1 tang1 point2 tang2 : Vec) (h : R) (i : nat) : Vec :=
  smooth_curve point1 tang1 point2 tang2 (INR i * h).

(** Two curve records that differ at most in their "Length". *)
Definition same_geometry (c c' : SectionData) : Prop :=
  Start_Position c = Start_Position c'
  /\ Start_Direction c = Start_Direction c'
  /\ End_Position c = End_Position c'
  /\ End_Direction c = End_Direction c'.

(** Two runs of a loop body agree: both go on, in related states, or both
    return the same value, or both raise the same exception. *)
Definition flow_rel {S S' A : Type} (rel : S -> S' -> Prop)
           (r : result (flow S A)) (r' : result (flow S' A)) : Prop :=
  match r, r' with
  | Ok (Continue s), Ok (Continue s') => rel s s'
  | Ok (Return a), Ok (Return a') => a = a'
  | Raise e, Raise e' => e = e'
  | _, _ => False
  end.

(** Positions along two curves that are the same fraction of their lengths. *)
Definition same_fraction (length length' pos pos' : R) : Prop :=
  pos / length = pos' / length'.

(** A straight curve along the x axis, from x = -1 to x = 1. *)
Definition curve_west_east : SectionData :=
  {| Length := 2;
     Start_Position := Vector.mk (-1) 0 0;
     Start_Direction := Vector.mk 0 0 0;
     End_Position := Vector.mk 1 0 0;
     End_Direction := Vector.mk 0 0 0 |}.

(** The point at fraction [c] of the straight segment from [a] to [b]. *)
Definition lerp (a b : Vec) (c : R) : Vec := a +v ((b -v a) *v c).

(** The opposite vector. *)
Definition opp (v : Vec) : Vec := v *v (-1).

(** The point of a curve record's Bezier curve at parameter [t]. *)
Definition curve_point (curve : SectionData) (t : R) : Vec :=
  smooth_curve (Start_Position curve) (Start_Direction curve)
               (End_Position curve) (End_Direction curve) t.

(** In the x-z plane, [p] is the point at fraction [mu] of the segment from
    [a] to [b]. *)
Definition on_segment_xz (p a b : Vec) (mu : R) : Prop :=
  0 <= mu <= 1
  /\ p.[0] = a.[0] + mu * (b.[0] - a.[0])
  /\ p.[2] = a.[2] + mu * (b.[2] - a.[2]).

(** A straight curve parallel to [curve_east], one unit further along z. *)
Definition curve_east_shifted : SectionData :=
  {| Length := 1;
     Start_Position := Vector.mk 0 0 1;
     Start_Direction := Vector.mk 0 0 0;
     End_Position := Vector.mk 1 0 1;
     End_Direction := Vector.mk 0 0 0 |}.

(** The same curve with another value in its "Length" property. *)
Definition with_length (curve : SectionData) (l : R) : SectionData :=
  {| Length := l;
     Start_Position := Start_Position curve;
     Start_Direction := Start_Direction curve;
     End_Position := End_Position curve;
     End_Direction := End_Direction curve |}.

(** [math.radians]: degrees to radians. *)
Definition radians (d : R) : R := d * (PI / 180).

(** Length of the projection of a vector on the x-z plane. *)
Definition horizontal_length (v : Vec) : R := sqrt (v.[0] * v.[0] + v.[2] * v.[2]).

(** The pairs of elements of a list, each element with every later one, in
    the order of two nested loops. *)
Fixpoint pairs {A : Type} (l : list A) : list (A * A) :=
  match l with
  | [] => []
  | a :: l' => map (pair a) l' ++ pairs l'
  end.

(** [curves_intersect] with the default part count on each pair in turn,
    stopping at the first exception. *)
Fixpoint test_pairs (ps : list (NavCurveSection * NavCurveSection))
  : result (list (option Vec)) :=
  match ps with
  | [] => Ok []
  | (a, b) :: ps' =>
      v <- curves_intersect (curve a) (curve b) 10 ;;
      vs <- test_pairs ps' ;;
      Ok (v :: vs)
  end.

(** The CROSS entries for pairs [ps] with results [vs]: one per pair whose
    result is a point. *)
Definition crossings (ps : list (NavCurveSection * NavCurveSection))
           (vs : list (option Vec)) : list entry :=
  flat_map (fun pv : NavCurveSection * NavCurveSection * option Vec =>
              match snd pv with
              | Some point => [(fst (fst pv), Some (snd (fst pv)), inr point)]
              | None => []
              end)
           (combine ps vs).

(** The START (or END) entries: one per section whose property is not -1. *)
Definition marker_entries (prop : NavCurveSection -> prop_value)
           (sections : list NavCurveSection) : list entry :=
  map (fun s => (s, None, inl 0%Z))
      (filter (fun s => ne_minus_one (prop s)) sections).

(** A navigation-curve section with no links, around a curve record. *)
Definition unlinked (c : SectionData) : NavCurveSection :=
  {| curve := c; NextCurves := IntValue (-1); PrevCurves := IntValue (-1) |}.

(** A navigation-curve section with a successor and no predecessor. *)
Definition first_section (c : SectionData) : NavCurveSection :=
  {| curve := c; NextCurves := SeqValue [1%Z]; PrevCurves := IntValue (-1) |}.

(** ** Bernstein weights and the curve's end points *)

(** C8: for every real [t], inside [0, 1] or not, the four cubic Bernstein
    coefficients returned by [compute_bernstein] sum to exactly 1. *)
Theorem compute_bernstein_partition_of_unity (t : R) :
  let '(b0, b1, b2, b3) := compute_bernstein t in b0 + b1 + b2 + b3 = 1.
Proof.
  unfold compute_bernstein. cbv zeta. ring.
Qed.

Lemma vector_eq (a b : Vec) :
  Vector.x a = Vector.x b -> Vector.y a = Vector.y b -> Vector.z a = Vector.z b ->
  a = b.
Proof.
  destruct a, b; simpl; intros; subst; reflexivity.
Qed.

Lemma smooth_curve_at_zero (point1 tang1 point2 tang2 : Vec) :
  smooth_curve point1 tang1 point2 tang2 0 = point1.
Proof.
  apply vector_eq;
    unfold smooth_curve, evaluate_bezier_curve, compute_bernstein; simpl; ring.
Qed.

(** C5: for all vectors [point1], [tang1], [point2], [tang2], [smooth_curve]
    at [coef = 0] is [point1] and at [coef = 1] is [point2], exactly. *)
Theorem smooth_curve_endpoints (point1 tang1 point2 tang2 : Vec) :
  smooth_curve point1 tang1 point2 tang2 0 = point1
  /\ smooth_curve point1 tang1 point2 tang2 1 = point2.
Proof.
  split; apply vector_eq;
    unfold smooth_curve, evaluate_bezier_curve, compute_bernstein; simpl; ring.
Qed.

(** ** The curve stays inside the box of its control polygon *)

Lemma min4_le (a b c d : R) :
  min4 a b c d <= a /\ min4 a b c d <= b /\ min4 a b c d <= c /\ min4 a b c d <= d.
Proof.
  unfold min4.
  pose proof (Rmin_l (Rmin a b) (Rmin c d)).
  pose proof (Rmin_r (Rmin a b) (Rmin c d)).
  pose proof (Rmin_l a b). pose proof (Rmin_r a b).
  pose proof (Rmin_l c d). pose proof (Rmin_r c d).
  repeat split; lra.
Qed.

Lemma max4_ge (a b c d : R) :
  a <= max4 a b c d /\ b <= max4 a b c d /\ c <= max4 a b c d /\ d <= max4 a b c d.
Proof.
  unfold max4.
  pose proof (Rmax_l (Rmax a b) (Rmax c d)).
  pose proof (Rmax_r (Rmax a b) (Rmax c d)).
  pose proof (Rmax_l a b). pose proof (Rmax_r a b).
  pose proof (Rmax_l c d). pose proof (Rmax_r c d).
  repeat split; lra.
Qed.

Lemma compute_bernstein_nonneg (t : R) :
  0 <= t <= 1 ->
  let '(b0, b1, b2, b3) := compute_bernstein t in
  0 <= b0 /\ 0 <= b1 /\ 0 <= b2 /\ 0 <= b3.
Proof.
  intros [H0 H1]. unfold compute_bernstein.
  assert (Hq : 0 <= 1 - t) by lra.
  repeat split.
  - repeat apply Rmult_le_pos; assumption.
  - repeat apply Rmult_le_pos; lra.
  - repeat apply Rmult_le_pos; lra.
  - repeat apply Rmult_le_pos; assumption.
Qed.

(** A convex combination of four numbers lies between their least and their
    greatest. *)
Lemma convex_combination_bounds (w0 w1 w2 w3 a b c d : R) :
  0 <= w0 -> 0 <= w1 -> 0 <= w2 -> 0 <= w3 -> w0 + w1 + w2 + w3 = 1 ->
  min4 a b c d <= w0 * a + w1 * b + w2 * c + w3 * d <= max4 a b c d.
Proof.
  intros H0 H1 H2 H3 Hs.
  destruct (min4_le a b c d) as (La & Lb & Lc & Ld).
  destruct (max4_ge a b c d) as (Ua & Ub & Uc & Ud).
  set (m := min4 a b c d) in *. set (M := max4 a b c d) in *.
  assert (w0 * m <= w0 * a) by (apply Rmult_le_compat_l; assumption).
  assert (w1 * m <= w1 * b) by (apply Rmult_le_compat_l; assumption).
  assert (w2 * m <= w2 * c) by (apply Rmult_le_compat_l; assumption).
  assert (w3 * m <= w3 * d) by (apply Rmult_le_compat_l; assumption).
  assert (w0 * a <= w0 * M) by (apply Rmult_le_compat_l; assumption).
  assert (w1 * b <= w1 * M) by (apply Rmult_le_compat_l; assumption).
  assert (w2 * c <= w2 * M) by (apply Rmult_le_compat_l; assumption).
  assert (w3 * d <= w3 * M) by (apply Rmult_le_compat_l; assumption).
  assert (Em : m = w0 * m + w1 * m + w2 * m + w3 * m)
    by (transitivity ((w0 + w1 + w2 + w3) * m); [rewrite Hs; ring | ring]).
  assert (EM : M = w0 * M + w1 * M + w2 * M + w3 * M)
    by (transitivity ((w0 + w1 + w2 + w3) * M); [rewrite Hs; ring | ring]).
  split; lra.
Qed.

(** C9: for every [coef] in [0, 1] and every coordinate [k] (0, 1, 2 for x, y,
    z), the coordinate of [smooth_curve point1 tang1 point2 tang2 coef] lies
    between the least and the greatest of the same coordinate of the four
    control points [point1], [point1 + tang1], [point2 - tang2], [point2]. *)
Theorem smooth_curve_convex_hull (point1 tang1 point2 tang2 : Vec) (coef : R) (k : nat) :
  0 <= coef <= 1 ->
  min4 point1.[k] (point1 +v tang1).[k] (point2 -v tang2).[k] point2.[k]
  <= (smooth_curve point1 tang1 point2 tang2 coef).[k]
  <= max4 point1.[k] (point1 +v tang1).[k] (point2 -v tang2).[k] point2.[k].
Proof.
  intros Hc.
  pose proof (compute_bernstein_nonneg coef Hc) as Hn.
  assert (Hs : let '(b0, b1, b2, b3) := compute_bernstein coef in
               b0 + b1 + b2 + b3 = 1)
    by (unfold compute_bernstein; ring).
  unfold smooth_curve, evaluate_bezier_curve.
  destruct (compute_bernstein coef) as [[[b0 b1] b2] b3].
  destruct Hn as (N0 & N1 & N2 & N3).
  destruct k as [|[|k]]; cbn [Vector.get Vector.x Vector.y Vector.z];
    apply convex_combination_bounds; assumption.
Qed.

Lemma smooth_curve_convex_hull_witness :
  let p1 := Vector.mk 0 0 0 in
  let t1 := Vector.mk 1 2 0 in
  let p2 := Vector.mk 4 0 1 in
  let t2 := Vector.mk 1 (-2) 0 in
  0 <= 1 / 2 <= 1
  /\ min4 p1.[1] (p1 +v t1).[1] (p2 -v t2).[1] p2.[1]
     <= (smooth_curve p1 t1 p2 t2 (1 / 2)).[1]
     <= max4 p1.[1] (p1 +v t1).[1] (p2 -v t2).[1] p2.[1].
Proof.
  intros p1 t1 p2 t2.
  assert (H : 0 <= 1 / 2 <= 1) by lra.
  split; [exact H | exact (smooth_curve_convex_hull p1 t1 p2 t2 (1 / 2) 1%nat H)].
Defined.

(** ** Division and comparison helpers *)

Lemma truediv_ok (a b : R) : b <> 0 -> truediv a b = Ok (a / b).
Proof.
  intros Hb. unfold truediv. destruct (Req_dec_T b 0); [contradiction | reflexivity].
Qed.

Lemma truediv_zero (a : R) : truediv a 0 = Raise ZeroDivisionError.
Proof.
  unfold truediv. destruct (Req_dec_T 0 0); [reflexivity | exfalso; auto].
Qed.

Lemma ltb_true (a b : R) : a < b -> (a <? b) = true.
Proof. intros H. unfold ltb. destruct (Rlt_dec a b); [reflexivity | contradiction]. Qed.

Lemma ltb_false (a b : R) : ~ a < b -> (a <? b) = false.
Proof. intros H. unfold ltb. destruct (Rlt_dec a b); [contradiction | reflexivity]. Qed.

Lemma gtb_true (a b : R) : a > b -> (a >? b) = true.
Proof. intros H. unfold gtb. destruct (Rgt_dec a b); [reflexivity | contradiction]. Qed.

Lemma gtb_false (a b : R) : ~ a > b -> (a >? b) = false.
Proof. intros H. unfold gtb. destruct (Rgt_dec a b); [contradiction | reflexivity]. Qed.

(** Decide every comparison in the goal, keeping the fact that decided it. *)
Ltac cmp_cases :=
  repeat match goal with
         | |- context [ltb ?a ?b] =>
             let H := fresh "Hlt" in
             destruct (Rlt_dec a b) as [H | H];
             [rewrite (ltb_true a b H) | rewrite (ltb_false a b H)]
         | |- context [gtb ?a ?b] =>
             let H := fresh "Hgt" in
             destruct (Rgt_dec a b) as [H | H];
             [rewrite (gtb_true a b H) | rewrite (gtb_false a b H)]
         end.

(** ** set_direction: which yaw, and in which range *)

Lemma epsilon_direction_pos : 0 < epsilon_direction.
Proof. unfold epsilon_direction. lra. Qed.

Lemma Rabs_ge_nonzero (v e : R) : 0 < e -> ~ Rabs v < e -> v <> 0.
Proof.
  intros He Hv Hz. apply Hv. rewrite Hz, Rabs_R0. exact He.
Qed.

Lemma degrees_lt (a b : R) : a < b -> degrees a < degrees b.
Proof.
  intros H. unfold degrees. apply Rmult_lt_compat_r; [| exact H].
  apply Rdiv_lt_0_compat; [lra | exact PI_RGT_0].
Qed.

Lemma degrees_le (a b : R) : a <= b -> degrees a <= degrees b.
Proof.
  intros H. unfold degrees. apply Rmult_le_compat_r; [| exact H].
  left. apply Rdiv_lt_0_compat; [lra | exact PI_RGT_0].
Qed.

Lemma degrees_half_pi : degrees (PI / 2) = 90.
Proof.
  unfold degrees. pose proof PI_RGT_0. field. lra.
Qed.

Lemma degrees_neg_half_pi : degrees (- (PI / 2)) = -90.
Proof.
  unfold degrees. pose proof PI_RGT_0. field. lra.
Qed.

Lemma degrees_atan_bound (r : R) : -90 < degrees (atan r) < 90.
Proof.
  destruct (atan_bound r) as [Hl Hu].
  rewrite <- degrees_half_pi, <- degrees_neg_half_pi.
  split; apply degrees_lt; lra.
Qed.

Lemma v_clamp_bounds (num : R) : -1 <= v_clamp num (-1) 1 <= 1.
Proof.
  unfold v_clamp. cmp_cases; lra.
Qed.

Lemma degrees_asin_bound (q : R) : -90 <= degrees (asin (v_clamp q (-1) 1)) <= 90.
Proof.
  destruct (asin_bound (v_clamp q (-1) 1)) as [Hl Hu].
  rewrite <- degrees_half_pi, <- degrees_neg_half_pi.
  split; apply degrees_le; lra.
Qed.

(** The degenerate forward vector gives the no-rotation result. *)
Example set_direction_origin : set_direction origin = Ok (0, 0, 0).
Proof.
  unfold set_direction. cbv zeta.
  assert (E : length origin = 0).
  { unfold length, origin. cbn [Vector.get Vector.x Vector.y Vector.z].
    replace (0 * 0 + 0 * 0 + 0 * 0) with 0 by ring. exact sqrt_0. }
  rewrite E, ltb_true by exact epsilon_direction_pos. reflexivity.
Qed.

(** C7: for every forward vector of length at least 0.0001, when
    [|forward.z| < 0.0001] the yaw is 90 for [forward.x < 0], 270 for
    [forward.x > 0] and 0 for [forward.x = 0]; otherwise, with [angle] the
    arc tangent of [forward.x / forward.z] in degrees, the yaw is
    [angle + 180] when [forward.z >= 0], and when [forward.z < 0] it is
    [angle + 360] for a negative [angle] and [angle + 0] for any other. *)
Theorem set_direction_yaw (forward : Vec) :
  epsilon_direction <= length forward ->
  exists pitch roll yaw,
    set_direction forward = Ok (pitch, roll, yaw)
    /\ (Rabs forward.[2] < 0.0001 ->
        (forward.[0] < 0 -> yaw = 90)
        /\ (forward.[0] > 0 -> yaw = 270)
        /\ (forward.[0] = 0 -> yaw = 0))
    /\ (~ Rabs forward.[2] < 0.0001 ->
        let angle := degrees (atan (forward.[0] / forward.[2])) in
        (forward.[2] >= 0 -> yaw = angle + 180)
        /\ (forward.[2] < 0 -> angle < 0 -> yaw = angle + 360)
        /\ (forward.[2] < 0 -> angle >= 0 -> yaw = angle + 0)).
Proof.
  intros Hlen. pose proof epsilon_direction_pos as Heps.
  unfold set_direction. cbv zeta.
  rewrite (ltb_false (length forward) epsilon_direction) by lra.
  rewrite truediv_ok by lra. cbn [bind].
  unfold fabs.
  destruct (Rlt_dec (Rabs forward.[2]) epsilon_direction) as [Hz | Hz].
  - rewrite (ltb_true _ _ Hz).
    destruct (Rlt_dec forward.[0] 0) as [Hx | Hx].
    + rewrite (ltb_true _ _ Hx). do 3 eexists. split; [reflexivity |].
      split; [intros _; repeat split; intros; lra |].
      intros Hn. exfalso. apply Hn. exact Hz.
    + rewrite (ltb_false _ _ Hx).
      destruct (Rgt_dec forward.[0] 0) as [Hx' | Hx'].
      * rewrite (gtb_true _ _ Hx'). do 3 eexists. split; [reflexivity |].
        split; [intros _; repeat split; intros; lra |].
        intros Hn. exfalso. apply Hn. exact Hz.
      * rewrite (gtb_false _ _ Hx'). do 3 eexists. split; [reflexivity |].
        split; [intros _; repeat split; intros; lra |].
        intros Hn. exfalso. apply Hn. exact Hz.
  - rewrite (ltb_false _ _ Hz).
    rewrite truediv_ok by (exact (Rabs_ge_nonzero _ _ Heps Hz)). cbn [bind].
    do 3 eexists. split; [reflexivity |].
    split; [intros Hz'; exfalso; apply Hz; exact Hz' |].
    intros _. cbv zeta.
    set (angle := degrees (atan (forward.[0] / forward.[2]))).
    destruct (Rlt_dec forward.[2] 0) as [Hneg | Hneg].
    + rewrite (ltb_true _ _ Hneg).
      destruct (Rlt_dec angle 0) as [Ha | Ha].
      * rewrite (ltb_true _ _ Ha). repeat split; intros; lra.
      * rewrite (ltb_false _ _ Ha). repeat split; intros; lra.
    + rewrite (ltb_false _ _ Hneg). repeat split; intros; lra.
Qed.

Lemma length_unit_x : length (Vector.mk 1 0 0) = 1.
Proof.
  unfold length. cbn [Vector.get Vector.x Vector.y Vector.z].
  replace (1 * 1 + 0 * 0 + 0 * 0) with 1 by ring. exact sqrt_1.
Qed.

Lemma set_direction_yaw_witness :
  let forward := Vector.mk 1 0 0 in
  epsilon_direction <= length forward
  /\ exists pitch roll yaw,
      set_direction forward = Ok (pitch, roll, yaw)
      /\ (Rabs forward.[2] < 0.0001 ->
          (forward.[0] < 0 -> yaw = 90)
          /\ (forward.[0] > 0 -> yaw = 270)
          /\ (forward.[0] = 0 -> yaw = 0))
      /\ (~ Rabs forward.[2] < 0.0001 ->
          let angle := degrees (atan (forward.[0] / forward.[2])) in
          (forward.[2] >= 0 -> yaw = angle + 180)
          /\ (forward.[2] < 0 -> angle < 0 -> yaw = angle + 360)
          /\ (forward.[2] < 0 -> angle >= 0 -> yaw = angle + 0)).
Proof.
  intros forward.
  assert (H : epsilon_direction <= length forward)
    by (unfold forward; rewrite length_unit_x; unfold epsilon_direction; lra).
  split; [exact H | exact (set_direction_yaw forward H)].
Defined.

(** In exact arithmetic [set_direction] returns, for every forward vector, a
    pitch in [-90, 90] and a yaw in [0, 360], both ends included: in the
    degenerate branch, in the planar special cases and in both arc-tangent
    branches. *)
Lemma set_direction_closed_ranges (forward : Vec) :
  exists pitch roll yaw,
    set_direction forward = Ok (pitch, roll, yaw)
    /\ -90 <= pitch <= 90
    /\ 0 <= yaw <= 360.
Proof.
  pose proof epsilon_direction_pos as Heps.
  unfold set_direction. cbv zeta.
  destruct (Rlt_dec (length forward) epsilon_direction) as [Hd | Hd].
  - rewrite (ltb_true _ _ Hd). do 3 eexists. split; [reflexivity |]. lra.
  - rewrite (ltb_false _ _ Hd).
    rewrite truediv_ok by lra. cbn [bind].
    pose proof (degrees_asin_bound (forward.[1] / length forward)) as Hp.
    unfold fabs.
    destruct (Rlt_dec (Rabs forward.[2]) epsilon_direction) as [Hz | Hz].
    + rewrite (ltb_true _ _ Hz). cmp_cases;
        (do 3 eexists; split; [reflexivity | split; [exact Hp | lra]]).
    + rewrite (ltb_false _ _ Hz).
      rewrite truediv_ok by (exact (Rabs_ge_nonzero _ _ Heps Hz)). cbn [bind].
      pose proof (degrees_atan_bound (forward.[0] / forward.[2])) as Ha.
      do 3 eexists. split; [reflexivity |]. split; [exact Hp |].
      cmp_cases; lra.
Qed.

(** C10: the yaw does not stay below 360 on binary64 numbers.  For the
    forward vector [(1e-20, 0.0, -1.0)], whose quotient [forward[0] /
    forward[2]] is [-1e-20], and a [math.atan] that returns [-1e-20] for it
    (the arc tangent of so small a number rounds to the number itself), the
    angle in degrees is negative, 360.0 is added to it, and the sum rounds to
    360.0: [set_direction] returns a yaw of exactly 360.0. *)
Theorem set_direction_binary64_full_turn (asin atan : PrimFloat.float -> PrimFloat.float) :
  atan (PrimFloat.opp Binary64.tiny) = PrimFloat.opp Binary64.tiny ->
  exists pitch,
    Binary64.set_direction asin atan Binary64.nearly_south
    = Ok (pitch, Binary64.zero, Binary64.full_turn).
Proof.
  intros Hatan. cbv in Hatan. eexists.
  cbv. rewrite Hatan. cbv. reflexivity.
Qed.

Lemma set_direction_binary64_full_turn_witness :
  (fun r => r) (PrimFloat.opp Binary64.tiny) = PrimFloat.opp Binary64.tiny
  /\ exists pitch,
      Binary64.set_direction (fun r => r) (fun r => r) Binary64.nearly_south
      = Ok (pitch, Binary64.zero, Binary64.full_turn).
Proof.
  split; [reflexivity |].
  exact (set_direction_binary64_full_turn (fun r => r) (fun r => r) eq_refl).
Defined.

(** ** Loops over [range] *)

Lemma range_length (n : Z) : List.length (range n) = Z.to_nat n.
Proof.
  unfold range. rewrite length_map, length_seq. reflexivity.
Qed.

Lemma range_succ (n : Z) :
  (0 <= n)%Z -> range (n + 1) = range n ++ [n].
Proof.
  intros Hn. unfold range.
  replace (Z.to_nat (n + 1)) with (S (Z.to_nat n)) by lia.
  rewrite seq_S, map_app. simpl. rewrite Z2Nat.id by assumption. reflexivity.
Qed.

Lemma range_nonpos (n : Z) : (n <= 0)%Z -> range n = [].
Proof.
  intros Hn. unfold range. replace (Z.to_nat n) with O by lia. reflexivity.
Qed.

Lemma range_head (n : Z) :
  (1 <= n)%Z -> exists rest, range n = 0%Z :: rest.
Proof.
  intros Hn. unfold range.
  destruct (Z.to_nat n) as [| k] eqn:E; [lia |].
  simpl. eexists. reflexivity.
Qed.

Lemma IZR_nonzero (n : Z) : n <> 0%Z -> IZR n <> 0.
Proof.
  intros Hn H. apply Hn. apply eq_IZR. exact H.
Qed.

(** ** compute_smooth_curve_length returns for every non-zero step count *)

Lemma compute_smooth_curve_length_ok (point1 tang1 point2 tang2 : Vec) (steps : Z) :
  steps <> 0%Z ->
  exists le, compute_smooth_curve_length point1 tang1 point2 tang2 steps = Ok le.
Proof.
  intros Hs. unfold compute_smooth_curve_length.
  rewrite truediv_ok by (apply IZR_nonzero; exact Hs). cbn [bind].
  destruct (fold_left _ _ _) as [[lenth start_pos] coef].
  eexists. reflexivity.
Qed.

(** ** compute_curve *)

Lemma for_each_curve_body (point1 tang1 point2 tang2 : Vec) (le : R) (curve_steps : Z) :
  curve_steps <> 0%Z ->
  forall (segments : list Z) (points : list Vec),
    for_each (curve_body point1 tang1 point2 tang2 le curve_steps) segments points
    = Ok (Continue
            (A := curve_data)
            (points ++
               map (fun segment =>
                      smooth_curve point1 (tang1 *v (le / 3)) point2 (tang2 *v (le / 3))
                                   (IZR segment / IZR curve_steps))
                   segments)).
Proof.
  intros Hs. induction segments as [| segment segments IH]; intros points.
  - simpl. rewrite app_nil_r. reflexivity.
  - simpl. unfold curve_body at 1.
    rewrite truediv_ok by (apply IZR_nonzero; exact Hs). cbn [bind].
    rewrite IH. rewrite <- app_assoc. reflexivity.
Qed.

(** C6: for every [num_steps >= 1], [compute_curve] returns exactly
    [num_steps + 1] points; the last one is [point2]; the first one is
    [smooth_curve] at [coef = 0] (with the tangents scaled by a third of the
    estimated length), which is [point1]. *)
Theorem compute_curve_points (object : Type) (rotated_y_axis : object -> Vec)
        (obj_0 : object) (point1 : Vec) (obj_1 : object) (point2 : Vec)
        (num_steps : Z) :
  (1 <= num_steps)%Z ->
  exists d le,
    compute_curve object rotated_y_axis obj_0 point1 obj_1 point2 num_steps = Ok d
    /\ compute_smooth_curve_length point1 (rotated_y_axis obj_0)
                                   point2 (rotated_y_axis obj_1) 300 = Ok le
    /\ List.length (curve_points d) = (Z.to_nat num_steps + 1)%nat
    /\ nth_error (curve_points d) (Z.to_nat num_steps) = Some point2
    /\ nth_error (curve_points d) 0
       = Some (smooth_curve point1 (rotated_y_axis obj_0 *v (le / 3))
                            point2 (rotated_y_axis obj_1 *v (le / 3)) 0)
    /\ smooth_curve point1 (rotated_y_axis obj_0 *v (le / 3))
                    point2 (rotated_y_axis obj_1 *v (le / 3)) 0 = point1.
Proof.
  intros Hn.
  destruct (compute_smooth_curve_length_ok
              point1 (rotated_y_axis obj_0) point2 (rotated_y_axis obj_1) 300)
    as [le Hle]; [lia |].
  unfold compute_curve. rewrite Hle. cbn [bind].
  rewrite for_each_curve_body by lia. cbn [bind app].
  eexists. exists le. split; [reflexivity |]. split; [reflexivity |].
  cbn [curve_points].
  assert (Hlen : List.length
                   (map (fun segment =>
                           smooth_curve point1 (rotated_y_axis obj_0 *v (le / 3))
                                        point2 (rotated_y_axis obj_1 *v (le / 3))
                                        (IZR segment / IZR num_steps))
                        (range num_steps)) = Z.to_nat num_steps)
    by (rewrite length_map; apply range_length).
  split; [rewrite length_app, Hlen; reflexivity |].
  split.
  - rewrite nth_error_app2 by (rewrite Hlen; apply Nat.le_refl).
    rewrite Hlen, Nat.sub_diag. reflexivity.
  - split.
    + destruct (range_head num_steps Hn) as [rest Hr]. rewrite Hr.
      cbn [map app nth_error].
      replace (0 / IZR num_steps) with 0 by (unfold Rdiv; ring).
      reflexivity.
    + apply smooth_curve_at_zero.
Qed.

Lemma compute_curve_points_witness :
  let rot := fun _ : unit => Vector.mk 0 1 0 in
  let point1 := Vector.mk 0 0 0 in
  let point2 := Vector.mk 4 0 0 in
  (1 <= 2)%Z
  /\ exists d le,
      compute_curve unit rot tt point1 tt point2 2 = Ok d
      /\ compute_smooth_curve_length point1 (rot tt) point2 (rot tt) 300 = Ok le
      /\ List.length (curve_points d) = (Z.to_nat 2 + 1)%nat
      /\ nth_error (curve_points d) (Z.to_nat 2) = Some point2
      /\ nth_error (curve_points d) 0
         = Some (smooth_curve point1 (rot tt *v (le / 3)) point2 (rot tt *v (le / 3)) 0)
      /\ smooth_curve point1 (rot tt *v (le / 3)) point2 (rot tt *v (le / 3)) 0 = point1.
Proof.
  intros rot point1 point2.
  assert (H : (1 <= 2)%Z) by lia.
  split; [exact H | exact (compute_curve_points unit rot tt point1 tt point2 2 H)].
Defined.

(** ** Zero and negative step counts *)

Lemma compute_smooth_curve_length_zero (point1 tang1 point2 tang2 : Vec) :
  compute_smooth_curve_length point1 tang1 point2 tang2 0 = Raise ZeroDivisionError.
Proof.
  unfold compute_smooth_curve_length. rewrite truediv_zero. reflexivity.
Qed.

Lemma compute_smooth_curve_length_negative (point1 tang1 point2 tang2 : Vec) (steps : Z) :
  (steps < 0)%Z ->
  compute_smooth_curve_length point1 tang1 point2 tang2 steps = Ok 0.
Proof.
  intros Hs. unfold compute_smooth_curve_length.
  rewrite truediv_ok by (apply IZR_nonzero; lia). cbn [bind].
  rewrite range_nonpos by lia. reflexivity.
Qed.

Lemma curves_intersect_zero (curve1 curve2 : SectionData) :
  curves_intersect curve1 curve2 0 = Raise ZeroDivisionError.
Proof.
  unfold curves_intersect. rewrite truediv_zero. reflexivity.
Qed.

Lemma curves_intersect_negative (curve1 curve2 : SectionData) (part_count : Z) :
  (part_count < 0)%Z ->
  curves_intersect curve1 curve2 part_count = Ok None.
Proof.
  intros Hs. unfold curves_intersect.
  rewrite !truediv_ok by (apply IZR_nonzero; lia). cbn [bind].
  rewrite range_nonpos by lia. reflexivity.
Qed.

(** C3, as the code has it: with a step count or part count of 0 both
    functions raise [ZeroDivisionError]; with a negative one neither raises:
    the loops run no iteration, the arc-length estimator returns 0 and the
    intersection detector returns [None]. *)
Theorem nonpositive_counts (point1 tang1 point2 tang2 : Vec)
        (curve1 curve2 : SectionData) (n : Z) :
  (n <= 0)%Z ->
  compute_smooth_curve_length point1 tang1 point2 tang2 n
  = (if (n =? 0)%Z then Raise ZeroDivisionError else Ok 0)
  /\ curves_intersect curve1 curve2 n
     = (if (n =? 0)%Z then Raise ZeroDivisionError else Ok None).
Proof.
  intros Hn. destruct (Z.eqb_spec n 0) as [E | E].
  - subst n. split;
      [apply compute_smooth_curve_length_zero | apply curves_intersect_zero].
  - split;
      [apply compute_smooth_curve_length_negative | apply curves_intersect_negative]; lia.
Qed.

Lemma nonpositive_counts_witness :
  (-1 <= 0)%Z
  /\ compute_smooth_curve_length origin origin origin origin (-1)
     = (if (-1 =? 0)%Z then Raise ZeroDivisionError else Ok 0)
  /\ curves_intersect flat_curve flat_curve (-1)
     = (if (-1 =? 0)%Z then Raise ZeroDivisionError else Ok None).
Proof.
  assert (H : (-1 <= 0)%Z) by lia.
  split; [exact H |].
  exact (nonpositive_counts origin origin origin origin flat_curve flat_curve (-1) H).
Defined.

(** C3 as stated fails: a negative step count or part count is not an error,
    the functions return a value. *)
Lemma negative_counts_return_silently :
  compute_smooth_curve_length origin origin origin origin (-1) = Ok 0
  /\ curves_intersect flat_curve flat_curve (-1) = Ok None.
Proof.
  split.
  - apply compute_smooth_curve_length_negative. lia.
  - apply curves_intersect_negative. lia.
Qed.

(** ** curves_intersect: where the chords are cut *)

Lemma pos_at_closed (step : R) (n : nat) : pos_at step n = INR n * step.
Proof.
  induction n as [| n IH].
  - simpl. ring.
  - unfold pos_at in *. rewrite S_INR. simpl. rewrite IH. ring.
Qed.

Lemma chord_params_ok (length step pos : R) :
  length <> 0 ->
  chord_params length step pos = Ok (pos / length, (pos + step) / length).
Proof.
  intros Hl. unfold chord_params. rewrite !truediv_ok by exact Hl. reflexivity.
Qed.




(** ** curves_intersect: the scan over chord pairs *)

Lemma for_each_app {I S A : Type} (body : I -> S -> result (flow S A))
      (xs ys : list I) (s : S) :
  for_each body (xs ++ ys) s
  = match for_each body xs s with
    | Ok (Continue s') => for_each body ys s'
    | Ok (Return a) => Ok (Return a)
    | Raise e => Raise e
    end.
Proof.
  revert s. induction xs as [| x xs IH]; intros s; simpl.
  - reflexivity.
  - destruct (body x s) as [[s' | a] | e]; [apply IH | reflexivity | reflexivity].
Qed.

Lemma chord_ok_length (curve : SectionData) (length step pos : R) (se : Vec * Vec) :
  chord curve length step pos = Ok se -> length <> 0.
Proof.
  unfold chord, chord_params, truediv.
  destruct (Req_dec_T length 0) as [E | E]; [discriminate | intros _; exact E].
Qed.

Lemma chord_total (curve : SectionData) (length step pos : R) :
  length <> 0 -> exists se, chord curve length step pos = Ok se.
Proof.
  intros Hl. unfold chord. rewrite chord_params_ok by exact Hl.
  eexists. reflexivity.
Qed.

Lemma Rabs_ge_eps_nonzero (d : R) : ~ Rabs d < 0.01 -> d <> 0.
Proof.
  apply Rabs_ge_nonzero. lra.
Qed.

Lemma chord_pair_test_skipped (part_count i j : Z) (start1 end1 start2 end2 : Vec)
      (pos2 : R) :
  skipped start1 end1 start2 end2 ->
  chord_pair_test part_count i j start1 end1 start2 end2 pos2 = Ok (Continue pos2).
Proof.
  unfold skipped, mu_a_of, mu_b_of, chord_pair_test, epsilon_intersect, fabs.
  cbv zeta. intros H.
  destruct (Rlt_dec (Rabs (denom_of start1 end1 start2 end2)) 0.01) as [Hd | Hd].
  - rewrite (ltb_true _ _ Hd). reflexivity.
  - rewrite (ltb_false _ _ Hd).
    rewrite !truediv_ok by (apply Rabs_ge_eps_nonzero; exact Hd). cbn [bind].
    destruct H as [H | [H | [H | [H | H]]]].
    + contradiction.
    + rewrite (ltb_true _ _ H). reflexivity.
    + rewrite (gtb_true _ _ H), orb_true_r. reflexivity.
    + rewrite (ltb_true _ _ H), orb_true_r. reflexivity.
    + rewrite (gtb_true _ _ H), orb_true_r. reflexivity.
Qed.

Lemma chord_pair_test_boundary (part_count i j : Z) (start1 end1 start2 end2 : Vec)
      (pos2 : R) :
  qualifying start1 end1 start2 end2 ->
  at_boundary part_count i j start1 end1 start2 end2 ->
  chord_pair_test part_count i j start1 end1 start2 end2 pos2 = Ok (Return None).
Proof.
  unfold qualifying, at_boundary, mu_a_of, mu_b_of, chord_pair_test,
    epsilon_intersect, fabs.
  cbv zeta. intros (Hd & Ha & Hb) H.
  rewrite (ltb_false (Rabs _) 0.01) by lra.
  rewrite !truediv_ok by (apply Rabs_ge_eps_nonzero; lra). cbn [bind].
  rewrite (ltb_false _ 0) by lra. rewrite (gtb_false _ 1) by lra.
  rewrite (ltb_false _ 0) by lra. rewrite (gtb_false _ 1) by lra.
  cbn [orb].
  destruct H as [[H E] | [[H E] | [[H E] | [H E]]]].
  - rewrite (ltb_true _ _ H). subst i. reflexivity.
  - rewrite (ltb_true (_ / _) 0.01 H). subst j. rewrite orb_true_r. reflexivity.
  - assert (H' : nume_a_of start1 end1 start2 end2 / denom_of start1 end1 start2 end2
                 > 1 - 0.01) by lra.
    rewrite (gtb_true _ _ H'). subst i. rewrite Z.eqb_refl. cbn [andb orb].
    destruct (_ || _); reflexivity.
  - assert (H' : nume_b_of start1 end1 start2 end2 / denom_of start1 end1 start2 end2
                 > 1 - 0.01) by lra.
    rewrite (gtb_true _ _ H'). subst j. rewrite Z.eqb_refl. cbn [andb].
    rewrite orb_true_r.
    destruct (_ || _); reflexivity.
Qed.

Section Scan.

Variables curve1 curve2 : SectionData.
Variable part_count : Z.

Let length1 := Length curve1.
Let length2 := Length curve2.
Let step1 := length1 / IZR part_count.
Let step2 := length2 / IZR part_count.

(** A run of chords of [curve2] that are all passed over leaves the inner
    loop running, with [pos2] advanced by one step per chord. *)
Lemma inner_loop_skips (i : Z) (start1 end1 : Vec) :
  length2 <> 0 ->
  forall (k a : nat),
    (forall j' start2 end2,
        (a <= j' < a + k)%nat ->
        chord curve2 length2 step2 (pos_at step2 j') = Ok (start2, end2) ->
        skipped start1 end1 start2 end2) ->
    for_each (inner_body curve2 length2 step2 part_count i start1 end1)
             (map Z.of_nat (seq a k)) (pos_at step2 a)
    = Ok (Continue (pos_at step2 (a + k))).
Proof.
  intros Hl. induction k as [| k IH]; intros a Hskip.
  - simpl. rewrite Nat.add_0_r. reflexivity.
  - simpl. unfold inner_body at 1.
    destruct (chord_total curve2 length2 step2 (pos_at step2 a) Hl) as [[s2 e2] Hc].
    rewrite Hc. cbn [bind].
    rewrite chord_pair_test_skipped by (apply (Hskip a); [lia | exact Hc]).
    change (pos_at step2 a + step2) with (pos_at step2 (S a)).
    rewrite IH by (intros j' s e Hj; apply Hskip; lia).
    f_equal. f_equal. f_equal. lia.
Qed.

(** The inner loop returns [None] at the first chord of [curve2] that is not
    passed over, when the crossing with it is at a boundary. *)
Lemma inner_loop_boundary (i : Z) (start1 end1 : Vec) (j : nat) (start2 end2 : Vec) :
  (Z.of_nat j < part_count)%Z ->
  (forall j' s2 e2,
      (j' < j)%nat ->
      chord curve2 length2 step2 (pos_at step2 j') = Ok (s2, e2) ->
      skipped start1 end1 s2 e2) ->
  chord curve2 length2 step2 (pos_at step2 j) = Ok (start2, end2) ->
  qualifying start1 end1 start2 end2 ->
  at_boundary part_count i (Z.of_nat j) start1 end1 start2 end2 ->
  for_each (inner_body curve2 length2 step2 part_count i start1 end1)
           (range part_count) 0
  = Ok (Return None).
Proof.
  intros Hj Hskip Hc Hq Hb.
  pose proof (chord_ok_length _ _ _ _ _ Hc) as Hl.
  unfold range.
  replace (Z.to_nat part_count) with (j + S (Z.to_nat part_count - S j))%nat by lia.
  rewrite seq_app, map_app, for_each_app.
  change 0 with (pos_at step2 0).
  rewrite (inner_loop_skips i start1 end1 Hl j 0)
    by (intros j' s e Hj'; apply Hskip; lia).
  cbn [Nat.add seq map for_each].
  unfold inner_body at 1. rewrite Hc. cbn [bind].
  rewrite chord_pair_test_boundary by assumption.
  reflexivity.
Qed.

(** A run of chords of [curve1] whose pairs with every chord of [curve2] are
    all passed over leaves the outer loop running. *)
Lemma outer_loop_skips :
  length1 <> 0 -> length2 <> 0 ->
  forall (k a : nat),
    (forall i' j' s1 e1 s2 e2,
        (a <= i' < a + k)%nat -> (Z.of_nat j' < part_count)%Z ->
        chord curve1 length1 step1 (pos_at step1 i') = Ok (s1, e1) ->
        chord curve2 length2 step2 (pos_at step2 j') = Ok (s2, e2) ->
        skipped s1 e1 s2 e2) ->
    for_each (outer_body curve1 curve2 length1 length2 step1 step2 part_count)
             (map Z.of_nat (seq a k)) (pos_at step1 a)
    = Ok (Continue (pos_at step1 (a + k))).
Proof.
  intros Hl1 Hl2. induction k as [| k IH]; intros a Hskip.
  - simpl. rewrite Nat.add_0_r. reflexivity.
  - simpl. unfold outer_body at 1.
    destruct (chord_total curve1 length1 step1 (pos_at step1 a) Hl1) as [[s1 e1] Hc].
    rewrite Hc. cbn [bind].
    unfold range. change 0 with (pos_at step2 0).
    rewrite (inner_loop_skips (Z.of_nat a) s1 e1 Hl2 (Z.to_nat part_count) 0)
      by (intros j' s e Hj' Hc2; apply (Hskip a j'); [lia | lia | exact Hc | exact Hc2]).
    cbn [bind].
    change (pos_at step1 a + step1) with (pos_at step1 (S a)).
    rewrite IH by (intros i' j' s1' e1' s2' e2' Hi'; apply Hskip; lia).
    f_equal. f_equal. f_equal. lia.
Qed.

End Scan.

(** C2: for every pair of curves and every [part_count >= 1], when the scan
    reaches chord pair [(i, j)] (every pair before it in the order of the scan
    was passed over) and that pair is a qualifying crossing ([|denom| >= 0.01],
    [mu_a] and [mu_b] in [0, 1]) with [mu_a < 0.01] and [i = 0], or
    [mu_b < 0.01] and [j = 0], or [mu_a > 0.99] and [i = part_count - 1], or
    [mu_b > 0.99] and [j = part_count - 1], then [curves_intersect] returns
    [None] for the curve pair, whatever the remaining chord pairs are. *)
Theorem curves_intersect_boundary_exclusion
        (curve1 curve2 : SectionData) (part_count : Z) (i j : nat)
        (start1 end1 start2 end2 : Vec) :
  let step1 := Length curve1 / IZR part_count in
  let step2 := Length curve2 / IZR part_count in
  (1 <= part_count)%Z ->
  (Z.of_nat i < part_count)%Z ->
  (Z.of_nat j < part_count)%Z ->
  (forall i' j' s1 e1 s2 e2,
      scanned_before i' j' i j -> (Z.of_nat j' < part_count)%Z ->
      chord curve1 (Length curve1) step1 (pos_at step1 i') = Ok (s1, e1) ->
      chord curve2 (Length curve2) step2 (pos_at step2 j') = Ok (s2, e2) ->
      skipped s1 e1 s2 e2) ->
  chord curve1 (Length curve1) step1 (pos_at step1 i) = Ok (start1, end1) ->
  chord curve2 (Length curve2) step2 (pos_at step2 j) = Ok (start2, end2) ->
  qualifying start1 end1 start2 end2 ->
  at_boundary part_count (Z.of_nat i) (Z.of_nat j) start1 end1 start2 end2 ->
  curves_intersect curve1 curve2 part_count = Ok None.
Proof.
  intros step1 step2 Hpc Hi Hj Hskip Hc1 Hc2 Hq Hb.
  subst step1 step2.
  pose proof (chord_ok_length _ _ _ _ _ Hc1) as Hl1.
  pose proof (chord_ok_length _ _ _ _ _ Hc2) as Hl2.
  unfold curves_intersect. cbv zeta.
  rewrite !truediv_ok by (apply IZR_nonzero; lia). cbn [bind].
  unfold range at 1.
  replace (Z.to_nat part_count) with (i + S (Z.to_nat part_count - S i))%nat by lia.
  rewrite seq_app, map_app, for_each_app.
  change 0 with (pos_at (Length curve1 / IZR part_count) 0) at 1.
  rewrite (outer_loop_skips curve1 curve2 part_count Hl1 Hl2 i 0)
    by (intros i' j' s1 e1 s2 e2 Hi' Hj'; apply Hskip; [left; lia | exact Hj']).
  cbn [Nat.add seq map for_each].
  unfold outer_body at 1. rewrite Hc1. cbn [bind].
  assert (Hrow : forall j' s2 e2,
             (j' < j)%nat ->
             chord curve2 (Length curve2) (Length curve2 / IZR part_count)
                   (pos_at (Length curve2 / IZR part_count) j') = Ok (s2, e2) ->
             skipped start1 end1 s2 e2).
  { intros j' s2 e2 Hj' Hc. apply (Hskip i j' start1 end1 s2 e2).
    - right. split; [reflexivity | exact Hj'].
    - lia.
    - exact Hc1.
    - exact Hc. }
  rewrite (inner_loop_boundary curve2 part_count (Z.of_nat i) start1 end1 j start2 end2
                               Hj Hrow Hc2 Hq Hb).
  reflexivity.
Qed.

Lemma chord_curve_east :
  chord curve_east (Length curve_east) (Length curve_east / IZR 1)
        (pos_at (Length curve_east / IZR 1) 0)
  = Ok (Vector.mk 0 0 0, Vector.mk 1 0 0).
Proof.
  unfold chord. rewrite chord_params_ok by (simpl; lra).
  cbn [bind fst snd]. f_equal. f_equal; apply vector_eq;
    unfold smooth_curve, evaluate_bezier_curve, compute_bernstein, pos_at;
    simpl; field.
Qed.

Lemma chord_curve_north :
  chord curve_north (Length curve_north) (Length curve_north / IZR 1)
        (pos_at (Length curve_north / IZR 1) 0)
  = Ok (Vector.mk 0 0 (-1), Vector.mk 0 0 1).
Proof.
  unfold chord. rewrite chord_params_ok by (simpl; lra).
  cbn [bind fst snd]. f_equal. f_equal; apply vector_eq;
    unfold smooth_curve, evaluate_bezier_curve, compute_bernstein, pos_at;
    simpl; field.
Qed.

Lemma east_north_qualifying :
  qualifying (Vector.mk 0 0 0) (Vector.mk 1 0 0) (Vector.mk 0 0 (-1)) (Vector.mk 0 0 1).
Proof.
  unfold qualifying, mu_a_of, mu_b_of, denom_of, nume_a_of, nume_b_of. simpl.
  replace ((1 - -1) * (1 - 0) - (0 - 0) * (0 - 0)) with 2 by ring.
  repeat split; try lra.
  rewrite Rabs_pos_eq; lra.
Qed.

Lemma east_north_at_boundary :
  at_boundary 1 (Z.of_nat 0) (Z.of_nat 0)
              (Vector.mk 0 0 0) (Vector.mk 1 0 0) (Vector.mk 0 0 (-1)) (Vector.mk 0 0 1).
Proof.
  left. split; [| reflexivity].
  unfold mu_a_of, denom_of, nume_a_of. simpl. lra.
Qed.

Lemma curves_intersect_boundary_exclusion_witness :
  curves_intersect curve_east curve_north 1 = Ok None.
Proof.
  apply (curves_intersect_boundary_exclusion
           curve_east curve_north 1 0 0
           (Vector.mk 0 0 0) (Vector.mk 1 0 0) (Vector.mk 0 0 (-1)) (Vector.mk 0 0 1)).
  - lia.
  - simpl. lia.
  - simpl. lia.
  - intros i' j' s1 e1 s2 e2 [Hlt | [_ Hlt]]; inversion Hlt.
  - exact chord_curve_east.
  - exact chord_curve_north.
  - exact east_north_qualifying.
  - exact east_north_at_boundary.
Defined.

(** ** curves_intersect: a crossing away from the boundaries *)

Lemma chord_pair_test_crossing (part_count i j : Z) (start1 end1 start2 end2 : Vec)
      (pos2 : R) :
  qualifying start1 end1 start2 end2 ->
  ~ at_boundary part_count i j start1 end1 start2 end2 ->
  chord_pair_test part_count i j start1 end1 start2 end2 pos2
  = Ok (Return (Some (Vector.mk
                        (start1.[0] + mu_a_of start1 end1 start2 end2
                                      * (end1.[0] - start1.[0]))
                        ((start1.[1] + end1.[1] + start2.[1] + end2.[1]) / 4)
                        (start1.[2] + mu_a_of start1 end1 start2 end2
                                      * (end1.[2] - start1.[2]))))).
Proof.
  unfold qualifying, at_boundary, mu_a_of, mu_b_of, chord_pair_test,
    epsilon_intersect, fabs.
  cbv zeta. intros (Hd & Ha & Hb) Hn.
  rewrite (ltb_false (Rabs _) 0.01) by lra.
  rewrite !truediv_ok by (apply Rabs_ge_eps_nonzero; lra). cbn [bind].
  rewrite (ltb_false _ 0) by lra. rewrite (gtb_false _ 1) by lra.
  rewrite (ltb_false _ 0) by lra. rewrite (gtb_false _ 1) by lra.
  cbn [orb].
  set (mu_a := nume_a_of start1 end1 start2 end2 / denom_of start1 end1 start2 end2) in *.
  set (mu_b := nume_b_of start1 end1 start2 end2 / denom_of start1 end1 start2 end2) in *.
  assert (E1 : (mu_a <? 0.01) && (i =? 0)%Z = false).
  { apply andb_false_iff. destruct (Rlt_dec mu_a 0.01) as [H | H].
    - right. apply Z.eqb_neq. intros E. apply Hn. left. split; assumption.
    - left. apply ltb_false. exact H. }
  assert (E2 : (mu_b <? 0.01) && (j =? 0)%Z = false).
  { apply andb_false_iff. destruct (Rlt_dec mu_b 0.01) as [H | H].
    - right. apply Z.eqb_neq. intros E. apply Hn. right. left. split; assumption.
    - left. apply ltb_false. exact H. }
  assert (E3 : (mu_a >? 1 - 0.01) && (i =? part_count - 1)%Z = false).
  { apply andb_false_iff. destruct (Rgt_dec mu_a (1 - 0.01)) as [H | H].
    - right. apply Z.eqb_neq. intros E. apply Hn. right. right. left.
      split; [lra | exact E].
    - left. apply gtb_false. exact H. }
  assert (E4 : (mu_b >? 1 - 0.01) && (j =? part_count - 1)%Z = false).
  { apply andb_false_iff. destruct (Rgt_dec mu_b (1 - 0.01)) as [H | H].
    - right. apply Z.eqb_neq. intros E. apply Hn. right. right. right.
      split; [lra | exact E].
    - left. apply gtb_false. exact H. }
  rewrite E1, E2, E3, E4. reflexivity.
Qed.

Lemma chord_curve_west_east :
  chord curve_west_east 2 (2 / IZR 1) 0 = Ok (Vector.mk (-1) 0 0, Vector.mk 1 0 0).
Proof.
  unfold chord. rewrite chord_params_ok by lra.
  cbn [bind fst snd]. f_equal. f_equal; apply vector_eq;
    unfold smooth_curve, evaluate_bezier_curve, compute_bernstein;
    simpl; field.
Qed.

(** With one chord per curve, the west-east line and the south-north line
    cross in the middle of both, and [curves_intersect] returns the origin. *)
Example curves_intersect_crossing :
  curves_intersect curve_west_east curve_north 1 = Ok (Some (Vector.mk 0 0 0)).
Proof.
  unfold curves_intersect. cbv zeta.
  rewrite !truediv_ok by lra. cbn [bind].
  change (range 1) with [0%Z]. cbn [for_each].
  unfold outer_body at 1. cbn [Length curve_west_east curve_north].
  rewrite chord_curve_west_east. cbn [bind].
  change (range 1) with [0%Z]. cbn [for_each].
  unfold inner_body at 1.
  pose proof chord_curve_north as Hn.
  cbn [Length curve_north pos_at Nat.iter nat_rect] in Hn. rewrite Hn. cbn [bind].
  assert (Hd : denom_of (Vector.mk (-1) 0 0) (Vector.mk 1 0 0)
                        (Vector.mk 0 0 (-1)) (Vector.mk 0 0 1) = 4)
    by (unfold denom_of; simpl; ring).
  rewrite chord_pair_test_crossing.
  - cbn [bind]. f_equal. f_equal.
    unfold mu_a_of, nume_a_of. rewrite Hd. apply vector_eq; simpl; field.
  - unfold qualifying, mu_a_of, mu_b_of, nume_a_of, nume_b_of. rewrite Hd.
    simpl. rewrite Rabs_pos_eq by lra. lra.
  - unfold at_boundary, mu_a_of, mu_b_of, nume_a_of, nume_b_of. rewrite Hd.
    simpl. intros [[H _] | [[H _] | [[H _] | [H _]]]]; lra.
Qed.

(** ** curves_intersect does not look at the value of "Length" *)

Lemma for_each_rel {I S S' A : Type} (rel : S -> S' -> Prop)
      (body : I -> S -> result (flow S A)) (body' : I -> S' -> result (flow S' A)) :
  (forall x s s', rel s s' -> flow_rel rel (body x s) (body' x s')) ->
  forall xs s s', rel s s' -> flow_rel rel (for_each body xs s) (for_each body' xs s').
Proof.
  intros Hbody. induction xs as [| x xs IH]; intros s s' Hs; simpl.
  - exact Hs.
  - pose proof (Hbody x s s' Hs) as Hx.
    destruct (body x s) as [[t | a] | e], (body' x s') as [[t' | a'] | e'];
      simpl in Hx; try contradiction.
    + apply IH. exact Hx.
    + exact Hx.
    + exact Hx.
Qed.

Lemma chord_same_fraction (c c' : SectionData) (l l' step step' pos pos' : R) :
  same_geometry c c' -> l <> 0 -> l' <> 0 ->
  same_fraction l l' pos pos' -> same_fraction l l' step step' ->
  chord c l step pos = chord c' l' step' pos'.
Proof.
  unfold same_fraction. intros (E1 & E2 & E3 & E4) Hl Hl' Hpos Hstep.
  unfold chord. rewrite !chord_params_ok by assumption. cbn [bind fst snd].
  rewrite E1, E2, E3, E4.
  replace ((pos + step) / l) with (pos / l + step / l) by (field; exact Hl).
  replace ((pos' + step') / l') with (pos' / l' + step' / l') by (field; exact Hl').
  rewrite Hpos, Hstep. reflexivity.
Qed.

(** The test of a chord pair hands [pos2] on untouched and never reads it. *)
Lemma chord_pair_test_state (part_count i j : Z) (start1 end1 start2 end2 : Vec)
      (pos2 pos2' : R) (rel : R -> R -> Prop) :
  rel pos2 pos2' ->
  flow_rel rel (chord_pair_test part_count i j start1 end1 start2 end2 pos2)
           (chord_pair_test part_count i j start1 end1 start2 end2 pos2').
Proof.
  intros Hrel. unfold chord_pair_test, truediv. cbv zeta.
  destruct (ltb _ _); [exact Hrel |].
  destruct (Req_dec_T _ 0); [reflexivity |]. cbn [bind].
  repeat match goal with
         | |- context [if ?b then _ else _] => destruct b
         end; solve [exact Hrel | reflexivity].
Qed.

Lemma inner_body_same_fraction (c c' : SectionData) (l l' step step' : R)
      (part_count i : Z) (start1 end1 : Vec) (j : Z) (pos2 pos2' : R) :
  same_geometry c c' -> l <> 0 -> l' <> 0 -> same_fraction l l' step step' ->
  same_fraction l l' pos2 pos2' ->
  flow_rel (same_fraction l l')
           (inner_body c l step part_count i start1 end1 j pos2)
           (inner_body c' l' step' part_count i start1 end1 j pos2').
Proof.
  intros Hg Hl Hl' Hstep Hpos. unfold inner_body.
  rewrite (chord_same_fraction c c' l l' step step' pos2 pos2') by assumption.
  destruct (chord c' l' step' pos2') as [[start2 end2] | e]; cbn [bind];
    [| reflexivity].
  apply chord_pair_test_state.
  unfold same_fraction in *.
  replace ((pos2 + step) / l) with (pos2 / l + step / l) by (field; exact Hl).
  replace ((pos2' + step') / l') with (pos2' / l' + step' / l') by (field; exact Hl').
  rewrite Hpos, Hstep. reflexivity.
Qed.

Lemma outer_body_same_fraction (c1 c1' c2 c2' : SectionData)
      (l1 l1' l2 l2' step1 step1' step2 step2' : R)
      (part_count i : Z) (pos1 pos1' : R) :
  same_geometry c1 c1' -> same_geometry c2 c2' ->
  l1 <> 0 -> l1' <> 0 -> l2 <> 0 -> l2' <> 0 ->
  same_fraction l1 l1' step1 step1' -> same_fraction l2 l2' step2 step2' ->
  same_fraction l1 l1' pos1 pos1' ->
  flow_rel (same_fraction l1 l1')
           (outer_body c1 c2 l1 l2 step1 step2 part_count i pos1)
           (outer_body c1' c2' l1' l2' step1' step2' part_count i pos1').
Proof.
  intros Hg1 Hg2 Hl1 Hl1' Hl2 Hl2' Hs1 Hs2 Hpos. unfold outer_body.
  rewrite (chord_same_fraction c1 c1' l1 l1' step1 step1' pos1 pos1') by assumption.
  destruct (chord c1' l1' step1' pos1') as [[start1 end1] | e]; cbn [bind];
    [| reflexivity].
  pose proof (for_each_rel
                (same_fraction l2 l2')
                (inner_body c2 l2 step2 part_count i start1 end1)
                (inner_body c2' l2' step2' part_count i start1 end1)
                (fun j p p' Hp =>
                   inner_body_same_fraction c2 c2' l2 l2' step2 step2' part_count i
                                            start1 end1 j p p' Hg2 Hl2 Hl2' Hs2 Hp)
                (range part_count) 0 0) as Hinner.
  assert (H0 : same_fraction l2 l2' 0 0)
    by (unfold same_fraction, Rdiv; rewrite !Rmult_0_l; reflexivity).
  specialize (Hinner H0).
  destruct (for_each (inner_body c2 l2 step2 part_count i start1 end1) _ _)
    as [[p | v] | e],
    (for_each (inner_body c2' l2' step2' part_count i start1 end1) _ _)
    as [[p' | v'] | e'];
    simpl in Hinner; try contradiction; cbn [bind flow_rel].
  - unfold same_fraction in *.
    replace ((pos1 + step1) / l1) with (pos1 / l1 + step1 / l1) by (field; exact Hl1).
    replace ((pos1' + step1') / l1') with (pos1' / l1' + step1' / l1')
      by (field; exact Hl1').
    rewrite Hpos, Hs1. reflexivity.
  - exact Hinner.
  - exact Hinner.
Qed.

(** X16: two pairs of curve records that differ only in their non-zero
    "Length" values get the same answer from [curves_intersect], for every
    part count. *)
Lemma curves_intersect_length_irrelevant (c1 c1' c2 c2' : SectionData) (part_count : Z) :
  same_geometry c1 c1' -> same_geometry c2 c2' ->
  Length c1 <> 0 -> Length c1' <> 0 -> Length c2 <> 0 -> Length c2' <> 0 ->
  curves_intersect c1 c2 part_count = curves_intersect c1' c2' part_count.
Proof.
  intros Hg1 Hg2 Hl1 Hl1' Hl2 Hl2'. unfold curves_intersect. cbv zeta.
  destruct (Z.eq_dec part_count 0) as [E | E].
  - subst part_count. rewrite !truediv_zero. reflexivity.
  - assert (Hpc : IZR part_count <> 0) by (apply IZR_nonzero; exact E).
    rewrite !truediv_ok by exact Hpc. cbn [bind].
    assert (Hs1 : same_fraction (Length c1) (Length c1')
                                (Length c1 / IZR part_count) (Length c1' / IZR part_count))
      by (unfold same_fraction; field; repeat split; assumption).
    assert (Hs2 : same_fraction (Length c2) (Length c2')
                                (Length c2 / IZR part_count) (Length c2' / IZR part_count))
      by (unfold same_fraction; field; repeat split; assumption).
    assert (H0 : same_fraction (Length c1) (Length c1') 0 0)
      by (unfold same_fraction, Rdiv; rewrite !Rmult_0_l; reflexivity).
    pose proof (for_each_rel
                  (same_fraction (Length c1) (Length c1'))
                  (outer_body c1 c2 (Length c1) (Length c2)
                              (Length c1 / IZR part_count) (Length c2 / IZR part_count)
                              part_count)
                  (outer_body c1' c2' (Length c1') (Length c2')
                              (Length c1' / IZR part_count) (Length c2' / IZR part_count)
                              part_count)
                  (fun i p p' Hp =>
                     outer_body_same_fraction
                       c1 c1' c2 c2' _ _ _ _ _ _ _ _ part_count i p p'
                       Hg1 Hg2 Hl1 Hl1' Hl2 Hl2' Hs1 Hs2 Hp)
                  (range part_count) 0 0 H0) as Houter.
    destruct (for_each (outer_body c1 c2 _ _ _ _ _) _ _) as [[p | v] | e],
      (for_each (outer_body c1' c2' _ _ _ _ _) _ _) as [[p' | v'] | e'];
      simpl in Houter; try contradiction; cbn [bind].
    + reflexivity.
    + rewrite Houter. reflexivity.
    + rewrite Houter. reflexivity.
Qed.

(** ** Euclidean length: the triangle inequality *)

Lemma dot_self_nonneg (u : Vec) : 0 <= dot u u.
Proof.
  unfold dot.
  pose proof (Rle_0_sqr (Vector.x u)). pose proof (Rle_0_sqr (Vector.y u)).
  pose proof (Rle_0_sqr (Vector.z u)). unfold Rsqr in *. lra.
Qed.

Lemma length_sqrt_dot (u : Vec) : Vector.length u = sqrt (dot u u).
Proof. reflexivity. Qed.

Lemma length_nonneg (u : Vec) : 0 <= Vector.length u.
Proof. apply sqrt_pos. Qed.

Lemma length_sqr (u : Vec) : Vector.length u * Vector.length u = dot u u.
Proof.
  rewrite length_sqrt_dot. apply sqrt_sqrt. apply dot_self_nonneg.
Qed.

Lemma cauchy_schwarz (u w : Vec) : dot u w * dot u w <= dot u u * dot w w.
Proof.
  destruct u as [a b c], w as [d e f]. unfold dot. simpl.
  pose proof (Rle_0_sqr (a * e - b * d)) as H1.
  pose proof (Rle_0_sqr (a * f - c * d)) as H2.
  pose proof (Rle_0_sqr (b * f - c * e)) as H3.
  unfold Rsqr in *.
  assert (E : (a * a + b * b + c * c) * (d * d + e * e + f * f)
              - (a * d + b * e + c * f) * (a * d + b * e + c * f)
              = (a * e - b * d) * (a * e - b * d)
                + (a * f - c * d) * (a * f - c * d)
                + (b * f - c * e) * (b * f - c * e)) by ring.
  lra.
Qed.

Lemma dot_le_lengths (u w : Vec) : dot u w <= Vector.length u * Vector.length w.
Proof.
  pose proof (length_nonneg u) as Hu. pose proof (length_nonneg w) as Hw.
  pose proof (Rmult_le_pos _ _ Hu Hw) as Hp.
  destruct (Rle_lt_dec (dot u w) 0) as [Hn | Hpos]; [lra |].
  apply Rsqr_incr_0_var; [| exact Hp].
  unfold Rsqr.
  replace (Vector.length u * Vector.length w * (Vector.length u * Vector.length w))
    with ((Vector.length u * Vector.length u) * (Vector.length w * Vector.length w))
    by ring.
  rewrite !length_sqr. apply cauchy_schwarz.
Qed.

Lemma length_add_le (u w : Vec) :
  Vector.length (u +v w) <= Vector.length u + Vector.length w.
Proof.
  pose proof (length_nonneg u) as Hu. pose proof (length_nonneg w) as Hw.
  rewrite <- (sqrt_square (Vector.length u + Vector.length w)) by lra.
  rewrite (length_sqrt_dot (u +v w)).
  apply sqrt_le_1_alt.
  replace ((Vector.length u + Vector.length w) * (Vector.length u + Vector.length w))
    with (Vector.length u * Vector.length u
          + 2 * (Vector.length u * Vector.length w)
          + Vector.length w * Vector.length w) by ring.
  rewrite !length_sqr.
  pose proof (dot_le_lengths u w) as Hd.
  replace (dot (u +v w) (u +v w)) with (dot u u + 2 * dot u w + dot w w)
    by (unfold dot, Vector.add; simpl; ring).
  lra.
Qed.

Lemma dist_nonneg (a b : Vec) : 0 <= dist a b.
Proof. apply length_nonneg. Qed.

Lemma dist_refl (a : Vec) : dist a a = 0.
Proof.
  unfold dist, Vector.length, Vector.sub. simpl.
  replace ((Vector.x a - Vector.x a) * (Vector.x a - Vector.x a)
           + (Vector.y a - Vector.y a) * (Vector.y a - Vector.y a)
           + (Vector.z a - Vector.z a) * (Vector.z a - Vector.z a)) with 0 by ring.
  exact sqrt_0.
Qed.

Lemma dist_triangle (a b c : Vec) : dist a c <= dist a b + dist b c.
Proof.
  unfold dist.
  replace (a -v c) with ((a -v b) +v (b -v c))
    by (apply vector_eq; unfold Vector.add, Vector.sub; simpl; ring).
  apply length_add_le.
Qed.

(** ** The polyline the estimator measures *)

Lemma chain_nonneg (g : nat -> Vec) (m a : nat) : 0 <= chain g a m.
Proof.
  revert a. induction m as [| m IH]; intros a; simpl.
  - lra.
  - pose proof (dist_nonneg (g a) (g (S a))). pose proof (IH (S a)). lra.
Qed.

Lemma chain_ext (g g' : nat -> Vec) :
  (forall i, g i = g' i) -> forall m a, chain g a m = chain g' a m.
Proof.
  intros E. induction m as [| m IH]; intros a; simpl.
  - reflexivity.
  - rewrite IH, !E. reflexivity.
Qed.

Lemma chain_app (g : nat -> Vec) (m1 m2 a : nat) :
  chain g a (m1 + m2) = chain g a m1 + chain g (a + m1) m2.
Proof.
  revert a. induction m1 as [| m1 IH]; intros a; simpl.
  - rewrite Nat.add_0_r. ring.
  - rewrite IH. replace (S a + m1)%nat with (a + S m1)%nat by lia. ring.
Qed.

(** The straight line between two points of a polyline is no longer than
    the polyline between them. *)
Lemma chain_triangle (g : nat -> Vec) (m a : nat) :
  dist (g a) (g (a + m)%nat) <= chain g a m.
Proof.
  revert a. induction m as [| m IH]; intros a; simpl.
  - rewrite Nat.add_0_r, dist_refl. lra.
  - pose proof (dist_triangle (g a) (g (S a)) (g (a + S m)%nat)) as Ht.
    pose proof (IH (S a)) as Hi.
    replace (S a + m)%nat with (a + S m)%nat in Hi by lia. lra.
Qed.

(** Keeping every [k]-th point of a polyline does not make it longer. *)
Lemma chain_refine (g : nat -> Vec) (k n a : nat) :
  chain (fun i => g (k * i)%nat) a n <= chain g (k * a) (k * n).
Proof.
  revert a. induction n as [| n IH]; intros a.
  - rewrite Nat.mul_0_r. simpl. lra.
  - cbn [chain].
    replace (k * S n)%nat with (k + k * n)%nat by lia.
    rewrite chain_app.
    pose proof (chain_triangle g k (k * a)) as Ht.
    pose proof (IH (S a)) as Hi.
    replace (k * S a)%nat with (k * a + k)%nat in * by lia.
    lra.
Qed.

(** ** compute_smooth_curve_length as the length of a polyline *)

Section Measure.

Variables point1 tang1 point2 tang2 : Vec.

Let samples := sample point1 tang1 point2 tang2.

Lemma sample_0 (h : R) : samples h 0 = point1.
Proof.
  unfold samples, sample. simpl. rewrite Rmult_0_l. apply smooth_curve_at_zero.
Qed.

Lemma measure_loop (h : R) (m a : nat) (lenth : R) :
  fold_left (measure_body point1 tang1 point2 tang2 h)
            (map Z.of_nat (seq a m)) (lenth, samples h a, h + INR a * h)
  = (lenth + chain (samples h) a m, samples h (a + m), h + INR (a + m) * h).
Proof.
  revert a lenth. induction m as [| m IH]; intros a lenth.
  - simpl. rewrite Nat.add_0_r. f_equal. f_equal. ring.
  - cbn [seq map fold_left]. unfold measure_body at 2.
    replace (smooth_curve point1 tang1 point2 tang2 (h + INR a * h))
      with (samples h (S a))
      by (unfold samples, sample; f_equal; rewrite S_INR; ring).
    replace (h + INR a * h + h) with (h + INR (S a) * h)
      by (rewrite S_INR; ring).
    rewrite IH. cbn [chain]. fold (dist (samples h a) (samples h (S a))).
    replace (S a + m)%nat with (a + S m)%nat by lia.
    f_equal. f_equal. ring.
Qed.

Lemma compute_smooth_curve_length_chain (steps : Z) :
  (1 <= steps)%Z ->
  compute_smooth_curve_length point1 tang1 point2 tang2 steps
  = Ok (chain (samples (1 / IZR steps)) 0 (Z.to_nat steps)).
Proof.
  intros Hs. unfold compute_smooth_curve_length.
  rewrite truediv_ok by (apply IZR_nonzero; lia). cbn [bind].
  unfold range.
  set (h := 1 / IZR steps).
  pose proof (measure_loop h (Z.to_nat steps) 0 0) as Hloop.
  rewrite sample_0 in Hloop.
  replace (h + INR 0 * h) with h in Hloop by (simpl; ring).
  rewrite Hloop. f_equal. ring.
Qed.

End Measure.



Lemma there_and_back (coef : R) :
  smooth_curve origin tang_out origin tang_back coef
  = Vector.mk (3 * coef * (1 - coef)) 0 0.
Proof.
  apply vector_eq;
    unfold smooth_curve, evaluate_bezier_curve, compute_bernstein; simpl; ring.
Qed.

Lemma dist_on_x_axis (a b : R) :
  dist (Vector.mk a 0 0) (Vector.mk b 0 0) = Rabs (a - b).
Proof.
  unfold dist, Vector.length, Vector.sub. simpl.
  replace ((a - b) * (a - b) + (0 - 0) * (0 - 0) + (0 - 0) * (0 - 0))
    with (Rsqr (a - b)) by (unfold Rsqr; ring).
  apply sqrt_Rsqr_abs.
Qed.


(** ** Bernstein weights: symmetry and range *)

(** X1: the weights at [1 - t] are the weights at [t] in reverse order. *)
Theorem compute_bernstein_mirror (t : R) :
  let '(b0, b1, b2, b3) := compute_bernstein t in
  compute_bernstein (1 - t) = (b3, b2, b1, b0).
Proof.
  unfold compute_bernstein. cbv zeta.
  apply f_equal2; [apply f_equal2; [apply f_equal2 |] |]; ring.
Qed.

(** X2: for [t] in [0, 1] every weight lies in [0, 1]. *)
Theorem compute_bernstein_unit_interval (t : R) :
  0 <= t <= 1 ->
  let '(b0, b1, b2, b3) := compute_bernstein t in
  0 <= b0 <= 1 /\ 0 <= b1 <= 1 /\ 0 <= b2 <= 1 /\ 0 <= b3 <= 1.
Proof.
  intros Ht.
  pose proof (compute_bernstein_nonneg t Ht) as Hn.
  assert (Hs : let '(b0, b1, b2, b3) := compute_bernstein t in
               b0 + b1 + b2 + b3 = 1)
    by (unfold compute_bernstein; ring).
  destruct (compute_bernstein t) as [[[b0 b1] b2] b3].
  destruct Hn as (N0 & N1 & N2 & N3). repeat split; lra.
Qed.

Lemma compute_bernstein_unit_interval_witness :
  0 <= 1 / 2 <= 1
  /\ let '(b0, b1, b2, b3) := compute_bernstein (1 / 2) in
     0 <= b0 <= 1 /\ 0 <= b1 <= 1 /\ 0 <= b2 <= 1 /\ 0 <= b3 <= 1.
Proof.
  assert (H : 0 <= 1 / 2 <= 1) by lra.
  split; [exact H | exact (compute_bernstein_unit_interval (1 / 2) H)].
Defined.

(** ** smooth_curve: symmetries and straight segments *)

(** X3: walking the curve backwards is the curve from [point2] to [point1]
    with both tangents turned around. *)
Theorem smooth_curve_reverse (point1 tang1 point2 tang2 : Vec) (coef : R) :
  smooth_curve point2 (opp tang2) point1 (opp tang1) (1 - coef)
  = smooth_curve point1 tang1 point2 tang2 coef.
Proof.
  apply vector_eq;
    unfold smooth_curve, evaluate_bezier_curve, compute_bernstein, opp; simpl; ring.
Qed.

(** X4: moving both waypoints by [d] moves every point of the curve by [d]. *)
Theorem smooth_curve_translate (point1 tang1 point2 tang2 d : Vec) (coef : R) :
  smooth_curve (point1 +v d) tang1 (point2 +v d) tang2 coef
  = smooth_curve point1 tang1 point2 tang2 coef +v d.
Proof.
  apply vector_eq;
    unfold smooth_curve, evaluate_bezier_curve, compute_bernstein; simpl; ring.
Qed.

(** X5: with both tangents zero the curve runs on the straight segment from
    [point1] to [point2], at fraction [3 coef^2 - 2 coef^3]; when the two
    waypoints coincide it stays on that point. *)
Theorem smooth_curve_zero_tangents (point1 point2 : Vec) (coef : R) :
  smooth_curve point1 origin point2 origin coef
  = lerp point1 point2 (3 * coef * coef - 2 * coef * coef * coef)
  /\ smooth_curve point1 origin point1 origin coef = point1.
Proof.
  split; apply vector_eq;
    unfold smooth_curve, evaluate_bezier_curve, compute_bernstein, lerp, origin;
    simpl; ring.
Qed.

(** X6: with both tangents a third of [point2 - point1] the curve is the
    straight segment from [point1] to [point2], walked at constant speed. *)
Theorem smooth_curve_straight (point1 point2 : Vec) (coef : R) :
  let tang := (point2 -v point1) *v (1 / 3) in
  smooth_curve point1 tang point2 tang coef = lerp point1 point2 coef.
Proof.
  cbv zeta. apply vector_eq;
    unfold smooth_curve, evaluate_bezier_curve, compute_bernstein, lerp;
    simpl; field.
Qed.

(** ** compute_smooth_curve_length: sign, lower bound, straight segments *)

Lemma sample_last (point1 tang1 point2 tang2 : Vec) (steps : Z) :
  (1 <= steps)%Z ->
  sample point1 tang1 point2 tang2 (1 / IZR steps) (Z.to_nat steps) = point2.
Proof.
  intros Hs. unfold sample.
  replace (INR (Z.to_nat steps) * (1 / IZR steps)) with 1.
  - apply vector_eq;
      unfold smooth_curve, evaluate_bezier_curve, compute_bernstein; simpl; ring.
  - rewrite INR_IZR_INZ, Z2Nat.id by lia. field. apply IZR_nonzero. lia.
Qed.

(** X7: for every non-zero step count the estimator returns a length, and
    that length is never negative. *)
Theorem compute_smooth_curve_length_nonneg
        (point1 tang1 point2 tang2 : Vec) (steps : Z) :
  steps <> 0%Z ->
  exists le,
    compute_smooth_curve_length point1 tang1 point2 tang2 steps = Ok le /\ 0 <= le.
Proof.
  intros Hs. destruct (Z_lt_le_dec steps 0) as [Hneg | Hpos].
  - exists 0. split; [apply compute_smooth_curve_length_negative; exact Hneg | lra].
  - eexists. split; [apply compute_smooth_curve_length_chain; lia |].
    apply chain_nonneg.
Qed.

Lemma compute_smooth_curve_length_nonneg_witness :
  5%Z <> 0%Z
  /\ exists le,
      compute_smooth_curve_length origin tang_out (Vector.mk 4 0 1) tang_out 5 = Ok le
      /\ 0 <= le.
Proof.
  assert (H : 5%Z <> 0%Z) by lia.
  split; [exact H |].
  exact (compute_smooth_curve_length_nonneg origin tang_out (Vector.mk 4 0 1) tang_out 5 H).
Defined.



Lemma length_scale (v : Vec) (k : R) :
  Vector.length (v *v k) = Rabs k * Vector.length v.
Proof.
  unfold Vector.length, Vector.scale. simpl.
  replace (Vector.x v * k * (Vector.x v * k) + Vector.y v * k * (Vector.y v * k)
           + Vector.z v * k * (Vector.z v * k))
    with (Rsqr k * (Vector.x v * Vector.x v + Vector.y v * Vector.y v
                    + Vector.z v * Vector.z v))
    by (unfold Rsqr; ring).
  rewrite sqrt_mult_alt by apply Rle_0_sqr.
  rewrite sqrt_Rsqr_abs. reflexivity.
Qed.

Lemma dist_lerp (p q : Vec) (a b : R) :
  dist (lerp p q a) (lerp p q b) = Rabs (a - b) * dist q p.
Proof.
  unfold dist. rewrite <- length_scale. f_equal.
  apply vector_eq; unfold lerp; simpl; ring.
Qed.

Lemma chain_lerp (p q : Vec) (h : R) (m a : nat) :
  0 <= h ->
  chain (fun i => lerp p q (INR i * h)) a m = INR m * (h * dist q p).
Proof.
  intros Hh. revert a. induction m as [| m IH]; intros a.
  - simpl. ring.
  - cbn [chain]. rewrite IH, dist_lerp, !S_INR.
    replace (INR a * h - (INR a + 1) * h) with (- h) by ring.
    rewrite Rabs_Ropp, Rabs_pos_eq by exact Hh. ring.
Qed.

Lemma dist_sym (a b : Vec) : dist a b = dist b a.
Proof.
  unfold dist.
  replace (a -v b) with ((b -v a) *v (-1))
    by (apply vector_eq; simpl; ring).
  rewrite length_scale.
  replace (Rabs (-1)) with 1 by (unfold Rabs; destruct (Rcase_abs (-1)); lra).
  ring.
Qed.



(** ** compute_curve: no steps, and where the points are *)

(** X10: with a step count of zero or less, [compute_curve] raises nothing
    and returns the single point [point2]: the loop runs no iteration, so the
    division by the step count is never reached. *)
Theorem compute_curve_no_steps (object : Type) (rotated_y_axis : object -> Vec)
        (obj_0 : object) (point1 : Vec) (obj_1 : object) (point2 : Vec)
        (curve_steps : Z) :
  (curve_steps <= 0)%Z ->
  compute_curve object rotated_y_axis obj_0 point1 obj_1 point2 curve_steps
  = Ok {| curve_points := [point2] |}.
Proof.
  intros Hs.
  destruct (compute_smooth_curve_length_ok
              point1 (rotated_y_axis obj_0) point2 (rotated_y_axis obj_1) 300)
    as [le Hle]; [lia |].
  unfold compute_curve. rewrite Hle. cbn [bind].
  rewrite range_nonpos by exact Hs. reflexivity.
Qed.

Lemma compute_curve_no_steps_witness :
  (0 <= 0)%Z
  /\ compute_curve unit (fun _ => Vector.mk 0 1 0) tt origin tt (Vector.mk 4 0 0) 0
     = Ok {| curve_points := [Vector.mk 4 0 0] |}.
Proof.
  assert (H : (0 <= 0)%Z) by lia.
  split; [exact H |].
  exact (compute_curve_no_steps unit (fun _ => Vector.mk 0 1 0) tt origin tt
                                (Vector.mk 4 0 0) 0 H).
Defined.

Lemma range_nth_error (n : Z) (k : nat) :
  (Z.of_nat k < n)%Z -> nth_error (range n) k = Some (Z.of_nat k).
Proof.
  intros Hk. unfold range.
  rewrite nth_error_map, nth_error_seq.
  destruct (Nat.ltb_spec k (Z.to_nat n)) as [_ | Hge]; [reflexivity | lia].
Qed.

(** X11: for [num_steps >= 1] and [k < num_steps], point [k] of the result is
    the curve at [coef = k / num_steps], with both tangents scaled by a third
    of the length estimated with 300 steps. *)
Theorem compute_curve_point_at (object : Type) (rotated_y_axis : object -> Vec)
        (obj_0 : object) (point1 : Vec) (obj_1 : object) (point2 : Vec)
        (num_steps : Z) (k : nat) :
  (Z.of_nat k < num_steps)%Z ->
  exists d le,
    compute_curve object rotated_y_axis obj_0 point1 obj_1 point2 num_steps = Ok d
    /\ compute_smooth_curve_length point1 (rotated_y_axis obj_0)
                                   point2 (rotated_y_axis obj_1) 300 = Ok le
    /\ nth_error (curve_points d) k
       = Some (smooth_curve point1 (rotated_y_axis obj_0 *v (le / 3))
                            point2 (rotated_y_axis obj_1 *v (le / 3))
                            (INR k / IZR num_steps)).
Proof.
  intros Hk.
  destruct (compute_smooth_curve_length_ok
              point1 (rotated_y_axis obj_0) point2 (rotated_y_axis obj_1) 300)
    as [le Hle]; [lia |].
  unfold compute_curve. rewrite Hle. cbn [bind].
  rewrite for_each_curve_body by lia. cbn [bind app].
  eexists. exists le. split; [reflexivity |]. split; [reflexivity |].
  cbn [curve_points].
  rewrite nth_error_app1
    by (rewrite length_map, range_length; lia).
  rewrite nth_error_map, range_nth_error by exact Hk.
  cbn [option_map]. rewrite <- INR_IZR_INZ. reflexivity.
Qed.

Lemma compute_curve_point_at_witness :
  (Z.of_nat 1 < 4)%Z
  /\ exists d le,
      compute_curve unit (fun _ => Vector.mk 0 1 0) tt origin tt (Vector.mk 4 0 0) 4
      = Ok d
      /\ compute_smooth_curve_length origin (Vector.mk 0 1 0)
                                     (Vector.mk 4 0 0) (Vector.mk 0 1 0) 300 = Ok le
      /\ nth_error (curve_points d) 1
         = Some (smooth_curve origin (Vector.mk 0 1 0 *v (le / 3))
                              (Vector.mk 4 0 0) (Vector.mk 0 1 0 *v (le / 3))
                              (INR 1 / IZR 4)).
Proof.
  assert (H : (Z.of_nat 1 < 4)%Z) by (simpl; lia).
  split; [exact H |].
  exact (compute_curve_point_at unit (fun _ => Vector.mk 0 1 0) tt origin tt
                                (Vector.mk 4 0 0) 4 1 H).
Defined.

(** ** curves_intersect: when it raises *)

Lemma chord_pair_test_ok (part_count i j : Z) (start1 end1 start2 end2 : Vec)
      (pos2 : R) :
  exists f, chord_pair_test part_count i j start1 end1 start2 end2 pos2 = Ok f.
Proof.
  unfold chord_pair_test, epsilon_intersect, fabs. cbv zeta.
  destruct (Rlt_dec (Rabs (denom_of start1 end1 start2 end2)) 0.01) as [Hd | Hd].
  - rewrite (ltb_true _ _ Hd). eexists. reflexivity.
  - rewrite (ltb_false _ _ Hd).
    rewrite !truediv_ok by (apply Rabs_ge_eps_nonzero; exact Hd). cbn [bind].
    repeat match goal with
           | |- context [if ?b then _ else _] => destruct b
           end; eexists; reflexivity.
Qed.

Lemma inner_loop_ok (curve2 : SectionData) (length2 step2 : R) (part_count i : Z)
      (start1 end1 : Vec) :
  length2 <> 0 ->
  forall js pos2,
  exists f,
    for_each (inner_body curve2 length2 step2 part_count i start1 end1) js pos2 = Ok f.
Proof.
  intros Hl. induction js as [| j js IH]; intros pos2.
  - eexists. reflexivity.
  - cbn [for_each]. unfold inner_body at 1.
    destruct (chord_total curve2 length2 step2 pos2 Hl) as [[s2 e2] Hc].
    rewrite Hc. cbn [bind].
    destruct (chord_pair_test_ok part_count i j start1 end1 s2 e2 (pos2 + step2))
      as [[p | v] Hf]; rewrite Hf.
    + apply IH.
    + eexists. reflexivity.
Qed.

Lemma outer_loop_ok (curve1 curve2 : SectionData) (length1 length2 step1 step2 : R)
      (part_count : Z) :
  length1 <> 0 -> length2 <> 0 ->
  forall idxs pos1,
  exists f,
    for_each (outer_body curve1 curve2 length1 length2 step1 step2 part_count)
             idxs pos1 = Ok f.
Proof.
  intros Hl1 Hl2. induction idxs as [| i idxs IH]; intros pos1.
  - eexists. reflexivity.
  - cbn [for_each]. unfold outer_body at 1.
    destruct (chord_total curve1 length1 step1 pos1 Hl1) as [[s1 e1] Hc].
    rewrite Hc. cbn [bind].
    destruct (inner_loop_ok curve2 length2 step2 part_count i s1 e1 Hl2
                            (range part_count) 0) as [[p | v] Hf];
      rewrite Hf; cbn [bind].
    + apply IH.
    + eexists. reflexivity.
Qed.

Lemma curves_intersect_ok (curve1 curve2 : SectionData) (part_count : Z) :
  part_count <> 0%Z -> Length curve1 <> 0 -> Length curve2 <> 0 ->
  exists v, curves_intersect curve1 curve2 part_count = Ok v.
Proof.
  intros Hpc Hl1 Hl2. unfold curves_intersect. cbv zeta.
  rewrite !truediv_ok by (apply IZR_nonzero; exact Hpc). cbn [bind].
  destruct (outer_loop_ok curve1 curve2 (Length curve1) (Length curve2)
                          (Length curve1 / IZR part_count)
                          (Length curve2 / IZR part_count) part_count Hl1 Hl2
                          (range part_count) 0) as [[p | v] Hf];
    rewrite Hf; cbn [bind]; eexists; reflexivity.
Qed.

Lemma chord_raises (curve : SectionData) (step pos : R) :
  chord curve 0 step pos = Raise ZeroDivisionError.
Proof.
  unfold chord, chord_params. rewrite truediv_zero. reflexivity.
Qed.

Lemma curves_intersect_zero_length (curve1 curve2 : SectionData) (part_count : Z) :
  (1 <= part_count)%Z -> Length curve1 = 0 \/ Length curve2 = 0 ->
  curves_intersect curve1 curve2 part_count = Raise ZeroDivisionError.
Proof.
  intros Hpc Hz. unfold curves_intersect. cbv zeta.
  rewrite !truediv_ok by (apply IZR_nonzero; lia). cbn [bind].
  destruct (range_head part_count Hpc) as [rest Hr]. rewrite Hr. cbn [for_each].
  unfold outer_body at 1.
  destruct (Req_dec_T (Length curve1) 0) as [E1 | N1].
  - rewrite E1 at 1. rewrite chord_raises. reflexivity.
  - destruct Hz as [E1 | E2]; [contradiction |].
    destruct (chord_total curve1 (Length curve1) (Length curve1 / IZR part_count) 0 N1)
      as [[s1 e1] Hc].
    rewrite Hc. cbn [bind]. rewrite Hr. cbn [for_each].
    unfold inner_body at 1. rewrite E2 at 1. rewrite chord_raises. reflexivity.
Qed.

(** X12: [curves_intersect] raises [ZeroDivisionError] exactly when the part
    count is 0, or the part count is at least 1 and one of the two curves has
    "Length" 0; in every other case it returns. *)
Theorem curves_intersect_raises_iff (curve1 curve2 : SectionData) (part_count : Z) :
  curves_intersect curve1 curve2 part_count = Raise ZeroDivisionError
  <-> (part_count = 0%Z
       \/ ((1 <= part_count)%Z /\ (Length curve1 = 0 \/ Length curve2 = 0))).
Proof.
  split.
  - intros Hr.
    destruct (Z.eq_dec part_count 0) as [E | N]; [left; exact E | right].
    destruct (Z_lt_le_dec part_count 0) as [Hneg | Hpos].
    + rewrite curves_intersect_negative in Hr by exact Hneg. discriminate.
    + split; [lia |].
      destruct (Req_dec_T (Length curve1) 0) as [E1 | N1]; [left; exact E1 |].
      destruct (Req_dec_T (Length curve2) 0) as [E2 | N2]; [right; exact E2 |].
      destruct (curves_intersect_ok curve1 curve2 part_count N N1 N2) as [v Hv].
      rewrite Hv in Hr. discriminate.
  - intros [E | [Hpc Hz]].
    + subst part_count. apply curves_intersect_zero.
    + apply curves_intersect_zero_length; assumption.
Qed.

(** ** curves_intersect: what a returned point is, and when there is none *)

Lemma for_each_return_inv {I S A : Type} (body : I -> S -> result (flow S A))
      (xs : list I) (s : S) (a : A) :
  for_each body xs s = Ok (Return a) ->
  exists x s', In x xs /\ body x s' = Ok (Return a).
Proof.
  revert s. induction xs as [| x xs IH]; intros s H; simpl in H.
  - discriminate.
  - destruct (body x s) as [[s' | a'] | e] eqn:E.
    + destruct (IH s' H) as (x' & s'' & Hin & Hb).
      exists x', s''. split; [right; exact Hin | exact Hb].
    + exists x, s. split; [left; reflexivity |]. rewrite E. exact H.
    + discriminate.
Qed.

Lemma chord_ok_inv (curve : SectionData) (length step pos : R) (s e : Vec) :
  chord curve length step pos = Ok (s, e) ->
  s = curve_point curve (pos / length)
  /\ e = curve_point curve ((pos + step) / length).
Proof.
  intros H. pose proof (chord_ok_length _ _ _ _ _ H) as Hl.
  unfold chord in H. rewrite chord_params_ok in H by exact Hl.
  cbn [bind fst snd] in H. inversion H. split; reflexivity.
Qed.

Lemma chord_pair_test_some_inv (part_count i j : Z) (start1 end1 start2 end2 : Vec)
      (pos2 : R) (p : Vec) :
  chord_pair_test part_count i j start1 end1 start2 end2 pos2 = Ok (Return (Some p)) ->
  qualifying start1 end1 start2 end2
  /\ p = Vector.mk
           (start1.[0] + mu_a_of start1 end1 start2 end2 * (end1.[0] - start1.[0]))
           ((start1.[1] + end1.[1] + start2.[1] + end2.[1]) / 4)
           (start1.[2] + mu_a_of start1 end1 start2 end2 * (end1.[2] - start1.[2])).
Proof.
  unfold qualifying, mu_a_of, mu_b_of, chord_pair_test, epsilon_intersect, fabs.
  cbv zeta. intros H.
  destruct (Rlt_dec (Rabs (denom_of start1 end1 start2 end2)) 0.01) as [Hd | Hd].
  - rewrite (ltb_true _ _ Hd) in H. discriminate.
  - rewrite (ltb_false _ _ Hd) in H.
    rewrite !truediv_ok in H by (apply Rabs_ge_eps_nonzero; exact Hd).
    cbn [bind] in H.
    set (mu_a := nume_a_of start1 end1 start2 end2 / denom_of start1 end1 start2 end2) in *.
    set (mu_b := nume_b_of start1 end1 start2 end2 / denom_of start1 end1 start2 end2) in *.
    destruct (Rlt_dec mu_a 0) as [H1 | H1];
      [rewrite (ltb_true _ _ H1) in H; discriminate | rewrite (ltb_false _ _ H1) in H].
    destruct (Rgt_dec mu_a 1) as [H2 | H2];
      [rewrite (gtb_true _ _ H2) in H; discriminate | rewrite (gtb_false _ _ H2) in H].
    destruct (Rlt_dec mu_b 0) as [H3 | H3];
      [rewrite (ltb_true _ _ H3) in H; discriminate | rewrite (ltb_false _ _ H3) in H].
    destruct (Rgt_dec mu_b 1) as [H4 | H4];
      [rewrite (gtb_true _ _ H4) in H; discriminate | rewrite (gtb_false _ _ H4) in H].
    cbn [orb] in H.
    destruct ((mu_a <? 0.01) && (i =? 0)%Z || (mu_b <? 0.01) && (j =? 0)%Z);
      [discriminate |].
    destruct ((mu_a >? 1 - 0.01) && (i =? part_count - 1)%Z
              || (mu_b >? 1 - 0.01) && (j =? part_count - 1)%Z);
      [discriminate |].
    inversion H. split; [| reflexivity]. lra.
Qed.

(** The point computed on the chord of the first curve is also on the chord
    of the second curve. *)
Lemma crossing_on_second_chord (start1 end1 start2 end2 : Vec) :
  denom_of start1 end1 start2 end2 <> 0 ->
  start1.[0] + mu_a_of start1 end1 start2 end2 * (end1.[0] - start1.[0])
  = start2.[0] + mu_b_of start1 end1 start2 end2 * (end2.[0] - start2.[0])
  /\ start1.[2] + mu_a_of start1 end1 start2 end2 * (end1.[2] - start1.[2])
     = start2.[2] + mu_b_of start1 end1 start2 end2 * (end2.[2] - start2.[2]).
Proof.
  unfold mu_a_of, mu_b_of, nume_a_of, nume_b_of, denom_of.
  intros Hd. split; field; exact Hd.
Qed.



Lemma inner_loop_crossing (curve2 : SectionData) (part_count i : Z)
      (start1 end1 : Vec) (j : nat) (start2 end2 : Vec) :
  let length2 := Length curve2 in
  let step2 := length2 / IZR part_count in
  (Z.of_nat j < part_count)%Z ->
  (forall j' s2 e2,
      (j' < j)%nat ->
      chord curve2 length2 step2 (pos_at step2 j') = Ok (s2, e2) ->
      skipped start1 end1 s2 e2) ->
  chord curve2 length2 step2 (pos_at step2 j) = Ok (start2, end2) ->
  qualifying start1 end1 start2 end2 ->
  ~ at_boundary part_count i (Z.of_nat j) start1 end1 start2 end2 ->
  for_each (inner_body curve2 length2 step2 part_count i start1 end1)
           (range part_count) 0
  = Ok (Return (Some (Vector.mk
                        (start1.[0] + mu_a_of start1 end1 start2 end2
                                      * (end1.[0] - start1.[0]))
                        ((start1.[1] + end1.[1] + start2.[1] + end2.[1]) / 4)
                        (start1.[2] + mu_a_of start1 end1 start2 end2
                                      * (end1.[2] - start1.[2]))))).
Proof.
  intros length2 step2 Hj Hskip Hc Hq Hb. subst length2 step2.
  pose proof (chord_ok_length _ _ _ _ _ Hc) as Hl.
  unfold range.
  replace (Z.to_nat part_count) with (j + S (Z.to_nat part_count - S j))%nat by lia.
  rewrite seq_app, map_app, for_each_app.
  change 0 with (pos_at (Length curve2 / IZR part_count) 0) at 1.
  rewrite (inner_loop_skips curve2 part_count i start1 end1 Hl j 0)
    by (intros j' s e Hj'; apply Hskip; lia).
  cbn [Nat.add seq map for_each].
  unfold inner_body at 1. rewrite Hc. cbn [bind].
  rewrite chord_pair_test_crossing by assumption.
  reflexivity.
Qed.

(** X14: when the scan reaches chord pair [(i, j)] (every pair before it was
    passed over) and that pair is a qualifying crossing that is not at a
    boundary, [curves_intersect] returns the crossing: x and z at fraction
    [mu_a] of the chord of the first curve, y the mean of the y of the four
    chord ends. *)
Theorem curves_intersect_first_crossing
        (curve1 curve2 : SectionData) (part_count : Z) (i j : nat)
        (start1 end1 start2 end2 : Vec) :
  let step1 := Length curve1 / IZR part_count in
  let step2 := Length curve2 / IZR part_count in
  (Z.of_nat i < part_count)%Z ->
  (Z.of_nat j < part_count)%Z ->
  (forall i' j' s1 e1 s2 e2,
      scanned_before i' j' i j -> (Z.of_nat j' < part_count)%Z ->
      chord curve1 (Length curve1) step1 (pos_at step1 i') = Ok (s1, e1) ->
      chord curve2 (Length curve2) step2 (pos_at step2 j') = Ok (s2, e2) ->
      skipped s1 e1 s2 e2) ->
  chord curve1 (Length curve1) step1 (pos_at step1 i) = Ok (start1, end1) ->
  chord curve2 (Length curve2) step2 (pos_at step2 j) = Ok (start2, end2) ->
  qualifying start1 end1 start2 end2 ->
  ~ at_boundary part_count (Z.of_nat i) (Z.of_nat j) start1 end1 start2 end2 ->
  curves_intersect curve1 curve2 part_count
  = Ok (Some (Vector.mk
                (start1.[0] + mu_a_of start1 end1 start2 end2 * (end1.[0] - start1.[0]))
                ((start1.[1] + end1.[1] + start2.[1] + end2.[1]) / 4)
                (start1.[2] + mu_a_of start1 end1 start2 end2 * (end1.[2] - start1.[2])))).
Proof.
  intros step1 step2 Hi Hj Hskip Hc1 Hc2 Hq Hb.
  subst step1 step2.
  pose proof (chord_ok_length _ _ _ _ _ Hc1) as Hl1.
  pose proof (chord_ok_length _ _ _ _ _ Hc2) as Hl2.
  unfold curves_intersect. cbv zeta.
  rewrite !truediv_ok by (apply IZR_nonzero; lia). cbn [bind].
  unfold range at 1.
  replace (Z.to_nat part_count) with (i + S (Z.to_nat part_count - S i))%nat by lia.
  rewrite seq_app, map_app, for_each_app.
  change 0 with (pos_at (Length curve1 / IZR part_count) 0) at 1.
  rewrite (outer_loop_skips curve1 curve2 part_count Hl1 Hl2 i 0)
    by (intros i' j' s1 e1 s2 e2 Hi' Hj'; apply Hskip; [left; lia | exact Hj']).
  cbn [Nat.add seq map for_each].
  unfold outer_body at 1. rewrite Hc1. cbn [bind].
  assert (Hrow : forall j' s2 e2,
             (j' < j)%nat ->
             chord curve2 (Length curve2) (Length curve2 / IZR part_count)
                   (pos_at (Length curve2 / IZR part_count) j') = Ok (s2, e2) ->
             skipped start1 end1 s2 e2).
  { intros j' s2 e2 Hj' Hc. apply (Hskip i j' start1 end1 s2 e2).
    - right. split; [reflexivity | exact Hj'].
    - lia.
    - exact Hc1.
    - exact Hc. }
  rewrite (inner_loop_crossing curve2 part_count (Z.of_nat i) start1 end1 j start2 end2
                               Hj Hrow Hc2 Hq Hb).
  reflexivity.
Qed.

(** X15: when every chord pair is passed over (parallel chords, or a crossing
    outside one of the two chords), and neither "Length" is 0,
    [curves_intersect] returns [None]. *)
Theorem curves_intersect_no_crossing
        (curve1 curve2 : SectionData) (part_count : Z) :
  let step1 := Length curve1 / IZR part_count in
  let step2 := Length curve2 / IZR part_count in
  part_count <> 0%Z -> Length curve1 <> 0 -> Length curve2 <> 0 ->
  (forall i j s1 e1 s2 e2,
      (Z.of_nat i < part_count)%Z -> (Z.of_nat j < part_count)%Z ->
      chord curve1 (Length curve1) step1 (pos_at step1 i) = Ok (s1, e1) ->
      chord curve2 (Length curve2) step2 (pos_at step2 j) = Ok (s2, e2) ->
      skipped s1 e1 s2 e2) ->
  curves_intersect curve1 curve2 part_count = Ok None.
Proof.
  intros step1 step2 Hpc Hl1 Hl2 Hskip. subst step1 step2.
  unfold curves_intersect. cbv zeta.
  rewrite !truediv_ok by (apply IZR_nonzero; exact Hpc). cbn [bind].
  unfold range at 1.
  change 0 with (pos_at (Length curve1 / IZR part_count) 0) at 1.
  rewrite (outer_loop_skips curve1 curve2 part_count Hl1 Hl2 (Z.to_nat part_count) 0)
    by (intros i j s1 e1 s2 e2 Hi Hj; apply Hskip; lia).
  reflexivity.
Qed.

Lemma west_east_north_denom :
  denom_of (Vector.mk (-1) 0 0) (Vector.mk 1 0 0) (Vector.mk 0 0 (-1)) (Vector.mk 0 0 1)
  = 4.
Proof. unfold denom_of. simpl. ring. Qed.

Lemma west_east_north_qualifying :
  qualifying (Vector.mk (-1) 0 0) (Vector.mk 1 0 0)
             (Vector.mk 0 0 (-1)) (Vector.mk 0 0 1).
Proof.
  unfold qualifying, mu_a_of, mu_b_of, nume_a_of, nume_b_of.
  rewrite west_east_north_denom. simpl. rewrite Rabs_pos_eq by lra. lra.
Qed.

Lemma west_east_north_interior :
  ~ at_boundary 1 (Z.of_nat 0) (Z.of_nat 0)
      (Vector.mk (-1) 0 0) (Vector.mk 1 0 0) (Vector.mk 0 0 (-1)) (Vector.mk 0 0 1).
Proof.
  unfold at_boundary, mu_a_of, mu_b_of, nume_a_of, nume_b_of.
  rewrite west_east_north_denom. simpl.
  intros [[H _] | [[H _] | [[H _] | [H _]]]]; lra.
Qed.

Lemma curves_intersect_first_crossing_witness :
  let start1 := Vector.mk (-1) 0 0 in
  let end1 := Vector.mk 1 0 0 in
  let start2 := Vector.mk 0 0 (-1) in
  let end2 := Vector.mk 0 0 1 in
  curves_intersect curve_west_east curve_north 1
  = Ok (Some (Vector.mk
                (start1.[0] + mu_a_of start1 end1 start2 end2 * (end1.[0] - start1.[0]))
                ((start1.[1] + end1.[1] + start2.[1] + end2.[1]) / 4)
                (start1.[2] + mu_a_of start1 end1 start2 end2 * (end1.[2] - start1.[2])))).
Proof.
  intros start1 end1 start2 end2.
  apply (curves_intersect_first_crossing
           curve_west_east curve_north 1 0 0 start1 end1 start2 end2).
  - simpl. lia.
  - simpl. lia.
  - intros i' j' s1 e1 s2 e2 [Hlt | [_ Hlt]]; inversion Hlt.
  - exact chord_curve_west_east.
  - exact chord_curve_north.
  - exact west_east_north_qualifying.
  - exact west_east_north_interior.
Defined.

Lemma chord_curve_east_shifted :
  chord curve_east_shifted (Length curve_east_shifted)
        (Length curve_east_shifted / IZR 1)
        (pos_at (Length curve_east_shifted / IZR 1) 0)
  = Ok (Vector.mk 0 0 1, Vector.mk 1 0 1).
Proof.
  unfold chord. rewrite chord_params_ok by (simpl; lra).
  cbn [bind fst snd]. f_equal. f_equal; apply vector_eq;
    unfold smooth_curve, evaluate_bezier_curve, compute_bernstein, pos_at;
    simpl; field.
Qed.

Lemma curves_intersect_no_crossing_witness :
  curves_intersect curve_east curve_east_shifted 1 = Ok None.
Proof.
  apply (curves_intersect_no_crossing curve_east curve_east_shifted 1).
  - lia.
  - simpl. lra.
  - simpl. lra.
  - intros i j s1 e1 s2 e2 Hi Hj.
    assert (Ei : i = 0%nat) by lia. assert (Ej : j = 0%nat) by lia. subst i j.
    rewrite chord_curve_east, chord_curve_east_shifted.
    intros H1 H2. injection H1 as <- <-. injection H2 as <- <-.
    left. unfold denom_of. simpl.
    replace ((1 - 1) * (1 - 0) - (1 - 0) * (0 - 0)) with 0 by ring.
    rewrite Rabs_R0. lra.
Defined.

Lemma curves_intersect_length_irrelevant_witness :
  curves_intersect curve_west_east curve_north 1
  = curves_intersect (with_length curve_west_east 7) (with_length curve_north 3) 1.
Proof.
  apply curves_intersect_length_irrelevant.
  - repeat split.
  - repeat split.
  - simpl. lra.
  - simpl. lra.
  - simpl. lra.
  - simpl. lra.
Defined.

(** ** set_direction: the angles give the direction back *)

Lemma radians_degrees (a : R) : radians (degrees a) = a.
Proof.
  unfold radians, degrees. pose proof PI_RGT_0. field. lra.
Qed.

Lemma radians_plus (a b : R) : radians (a + b) = radians a + radians b.
Proof. unfold radians. ring. Qed.

Lemma radians_180 : radians 180 = PI.
Proof. unfold radians. field. Qed.

Lemma radians_360 : radians 360 = 2 * PI.
Proof. unfold radians. field. Qed.

Lemma length_square (v : Vec) :
  length v * length v = v.[0] * v.[0] + v.[1] * v.[1] + v.[2] * v.[2].
Proof.
  unfold length. apply sqrt_sqrt.
  pose proof (Rle_0_sqr v.[0]). pose proof (Rle_0_sqr v.[1]).
  pose proof (Rle_0_sqr v.[2]). unfold Rsqr in *. lra.
Qed.

Lemma horizontal_length_square (v : Vec) :
  horizontal_length v * horizontal_length v = v.[0] * v.[0] + v.[2] * v.[2].
Proof.
  unfold horizontal_length. apply sqrt_sqrt.
  pose proof (Rle_0_sqr v.[0]). pose proof (Rle_0_sqr v.[2]).
  unfold Rsqr in *. lra.
Qed.

Lemma Rabs_le_sqrt (a s : R) : a * a <= s -> Rabs a <= sqrt s.
Proof.
  intros H. rewrite <- sqrt_Rsqr_abs. apply sqrt_le_1_alt. exact H.
Qed.

Lemma abs_z_le_length (v : Vec) : Rabs v.[2] <= length v.
Proof.
  unfold length. apply Rabs_le_sqrt.
  pose proof (Rle_0_sqr v.[0]). pose proof (Rle_0_sqr v.[1]). unfold Rsqr in *. lra.
Qed.

Lemma abs_y_le_length (v : Vec) : Rabs v.[1] <= length v.
Proof.
  unfold length. apply Rabs_le_sqrt.
  pose proof (Rle_0_sqr v.[0]). pose proof (Rle_0_sqr v.[2]). unfold Rsqr in *. lra.
Qed.

Lemma abs_z_le_horizontal (v : Vec) : Rabs v.[2] <= horizontal_length v.
Proof.
  unfold horizontal_length. apply Rabs_le_sqrt.
  pose proof (Rle_0_sqr v.[0]). unfold Rsqr in *. lra.
Qed.

Lemma normalized_y_range (v : Vec) :
  0 < length v -> -1 <= v.[1] / length v <= 1.
Proof.
  intros Hl. pose proof (abs_y_le_length v) as Hy.
  assert (Hb : - length v <= v.[1] <= length v)
    by (unfold Rabs in Hy; destruct (Rcase_abs v.[1]); lra).
  split.
  - apply Rmult_le_reg_r with (length v); [exact Hl |].
    unfold Rdiv. rewrite Rmult_assoc, Rinv_l by lra. lra.
  - apply Rmult_le_reg_r with (length v); [exact Hl |].
    unfold Rdiv. rewrite Rmult_assoc, Rinv_l by lra. lra.
Qed.

Lemma v_clamp_inside (num : R) : -1 <= num <= 1 -> v_clamp num (-1) 1 = num.
Proof.
  intros H. unfold v_clamp.
  rewrite ltb_false by lra. rewrite gtb_false by lra. reflexivity.
Qed.

(** Sine and cosine of the pitch angle. *)
Lemma pitch_sin_cos (v : Vec) :
  0 < length v ->
  let pitch := degrees (asin (v_clamp (v.[1] / length v) (-1) 1)) in
  sin (radians pitch) = v.[1] / length v
  /\ cos (radians pitch) = horizontal_length v / length v.
Proof.
  intros Hl pitch. unfold pitch.
  pose proof (normalized_y_range v Hl) as Hq.
  rewrite radians_degrees, v_clamp_inside by exact Hq.
  split; [apply sin_asin; exact Hq |].
  rewrite cos_asin by exact Hq.
  apply sqrt_lem_1.
  - unfold Rsqr. destruct Hq as [Hq1 Hq2].
    assert (0 <= (1 - v.[1] / length v) * (1 + v.[1] / length v))
      by (apply Rmult_le_pos; lra).
    lra.
  - apply Rmult_le_pos; [apply sqrt_pos | left; apply Rinv_0_lt_compat; exact Hl].
  - unfold Rsqr.
    replace (horizontal_length v / length v * (horizontal_length v / length v))
      with ((horizontal_length v * horizontal_length v) / (length v * length v))
      by (field; lra).
    rewrite horizontal_length_square.
    replace (v.[0] * v.[0] + v.[2] * v.[2])
      with (length v * length v - v.[1] * v.[1])
      by (rewrite length_square; ring).
    field. lra.
Qed.

Lemma sqrt_one_plus_ratio (x z : R) :
  z <> 0 ->
  sqrt (1 + (x / z)²) = sqrt (x * x + z * z) / Rabs z.
Proof.
  intros Hz.
  assert (Ha : 0 < Rabs z) by (apply Rabs_pos_lt; exact Hz).
  assert (Hs : 0 <= x * x + z * z)
    by (pose proof (Rle_0_sqr x); pose proof (Rle_0_sqr z); unfold Rsqr in *; lra).
  apply sqrt_lem_1.
  - pose proof (Rle_0_sqr (x / z)). lra.
  - apply Rmult_le_pos; [apply sqrt_pos | left; apply Rinv_0_lt_compat; exact Ha].
  - replace (sqrt (x * x + z * z) / Rabs z * (sqrt (x * x + z * z) / Rabs z))
      with ((sqrt (x * x + z * z) * sqrt (x * x + z * z)) / (Rabs z * Rabs z))
      by (field; lra).
    rewrite sqrt_sqrt by exact Hs.
    replace (Rabs z * Rabs z) with (z * z)
      by (unfold Rabs; destruct (Rcase_abs z); ring).
    unfold Rsqr. field. exact Hz.
Qed.

(** Sine and cosine of the yaw angle of the arc-tangent branches. *)
Lemma yaw_sin_cos (v : Vec) :
  v.[2] <> 0 ->
  let angle := degrees (atan (v.[0] / v.[2])) in
  let yaw :=
    if v.[2] <? 0 then angle + (if angle <? 0 then 360 else 0) else angle + 180 in
  sin (radians yaw) = - v.[0] / horizontal_length v
  /\ cos (radians yaw) = - v.[2] / horizontal_length v.
Proof.
  intros Hz angle yaw.
  assert (Hh : 0 < horizontal_length v).
  { pose proof (abs_z_le_horizontal v). pose proof (Rabs_pos_lt _ Hz). lra. }
  assert (Hs : sin (atan (v.[0] / v.[2]))
               = v.[0] / v.[2] * (Rabs v.[2] / horizontal_length v)).
  { rewrite sin_atan, sqrt_one_plus_ratio by exact Hz.
    fold (horizontal_length v). field.
    repeat split; try lra; apply Rabs_no_R0; exact Hz. }
  assert (Hc : cos (atan (v.[0] / v.[2])) = Rabs v.[2] / horizontal_length v).
  { rewrite cos_atan, sqrt_one_plus_ratio by exact Hz.
    fold (horizontal_length v). field.
    repeat split; try lra; apply Rabs_no_R0; exact Hz. }
  assert (Ha : radians angle = atan (v.[0] / v.[2]))
    by (unfold angle; apply radians_degrees).
  unfold yaw.
  destruct (Rlt_dec v.[2] 0) as [Hneg | Hpos].
  - rewrite (ltb_true _ _ Hneg).
    assert (Eabs : Rabs v.[2] = - v.[2]) by (apply Rabs_left; exact Hneg).
    destruct (Rlt_dec angle 0) as [Hang | Hang].
    + rewrite (ltb_true _ _ Hang).
      rewrite radians_plus, radians_360, Ha, sin_plus, cos_plus, sin_2PI, cos_2PI.
      rewrite Hs, Hc, Eabs. split; field; lra.
    + rewrite (ltb_false _ _ Hang).
      rewrite Rplus_0_r, Ha, Hs, Hc, Eabs. split; field; lra.
  - rewrite (ltb_false _ _ Hpos).
    assert (Eabs : Rabs v.[2] = v.[2]) by (apply Rabs_pos_eq; lra).
    rewrite radians_plus, radians_180, Ha, neg_sin, neg_cos.
    rewrite Hs, Hc, Eabs. split; field; lra.
Qed.

(** X17: for a forward vector with [|forward.z| >= 0.0001], the returned
    pitch and yaw give the vector back: with [len] the length of [forward],
    [forward.x = - len cos(pitch) sin(yaw)], [forward.y = len sin(pitch)] and
    [forward.z = - len cos(pitch) cos(yaw)] (angles taken in radians); the
    roll is 0. *)
Theorem set_direction_round_trip (forward : Vec) :
  ~ Rabs forward.[2] < 0.0001 ->
  exists pitch yaw,
    set_direction forward = Ok (pitch, 0, yaw)
    /\ forward.[0] = - (length forward * cos (radians pitch) * sin (radians yaw))
    /\ forward.[1] = length forward * sin (radians pitch)
    /\ forward.[2] = - (length forward * cos (radians pitch) * cos (radians yaw)).
Proof.
  intros Hz. pose proof epsilon_direction_pos as Heps.
  pose proof (abs_z_le_length forward) as Hlz.
  assert (Hlen : epsilon_direction <= length forward)
    by (unfold epsilon_direction in *; lra).
  assert (Hznz : forward.[2] <> 0) by (apply (Rabs_ge_nonzero _ _ Heps); exact Hz).
  assert (Hh : 0 < horizontal_length forward).
  { pose proof (abs_z_le_horizontal forward). pose proof (Rabs_pos_lt _ Hznz). lra. }
  unfold set_direction. cbv zeta.
  rewrite (ltb_false (length forward) epsilon_direction) by lra.
  rewrite truediv_ok by lra. cbn [bind]. unfold fabs.
  rewrite (ltb_false (Rabs forward.[2]) epsilon_direction) by exact Hz.
  rewrite truediv_ok by exact Hznz. cbn [bind].
  do 2 eexists. split; [reflexivity |].
  destruct (pitch_sin_cos forward) as [Hps Hpc]; [lra |].
  destruct (yaw_sin_cos forward Hznz) as [Hys Hyc].
  cbv zeta in Hps, Hpc, Hys, Hyc.
  rewrite Hps, Hpc, Hys, Hyc.
  repeat split; field; lra.
Qed.

Lemma set_direction_round_trip_witness :
  let forward := Vector.mk 0 0 1 in
  ~ Rabs forward.[2] < 0.0001
  /\ exists pitch yaw,
      set_direction forward = Ok (pitch, 0, yaw)
      /\ forward.[0] = - (length forward * cos (radians pitch) * sin (radians yaw))
      /\ forward.[1] = length forward * sin (radians pitch)
      /\ forward.[2] = - (length forward * cos (radians pitch) * cos (radians yaw)).
Proof.
  intros forward.
  assert (H : ~ Rabs forward.[2] < 0.0001)
    by (unfold forward; simpl; rewrite Rabs_R1; lra).
  split; [exact H | exact (set_direction_round_trip forward H)].
Defined.

(** ** set_direction: half-spaces, vertical vectors, scaling *)

(** X18: a forward vector with [forward.z >= 0.0001] gets a yaw between 90
    and 270; one with [forward.z <= -0.0001] gets a yaw between 0 and 90 or
    between 270 and 360.  The ends are included: the sums [angle + 180] and
    [angle + 360] can round onto them. *)
Theorem set_direction_yaw_halfspace (forward : Vec) :
  ~ Rabs forward.[2] < 0.0001 ->
  exists pitch yaw,
    set_direction forward = Ok (pitch, 0, yaw)
    /\ (0 < forward.[2] -> 90 <= yaw <= 270)
    /\ (forward.[2] < 0 -> 0 <= yaw <= 90 \/ 270 <= yaw <= 360).
Proof.
  intros Hz. pose proof epsilon_direction_pos as Heps.
  pose proof (abs_z_le_length forward) as Hlz.
  assert (Hlen : epsilon_direction <= length forward)
    by (unfold epsilon_direction in *; lra).
  assert (Hznz : forward.[2] <> 0) by (apply (Rabs_ge_nonzero _ _ Heps); exact Hz).
  unfold set_direction. cbv zeta.
  rewrite (ltb_false (length forward) epsilon_direction) by lra.
  rewrite truediv_ok by lra. cbn [bind]. unfold fabs.
  rewrite (ltb_false (Rabs forward.[2]) epsilon_direction) by exact Hz.
  rewrite truediv_ok by exact Hznz. cbn [bind].
  do 2 eexists. split; [reflexivity |].
  pose proof (degrees_atan_bound (forward.[0] / forward.[2])) as Ha.
  split; intros Hsign; cmp_cases; lra.
Qed.

Lemma set_direction_yaw_halfspace_witness :
  let forward := Vector.mk 0 0 1 in
  ~ Rabs forward.[2] < 0.0001
  /\ exists pitch yaw,
      set_direction forward = Ok (pitch, 0, yaw)
      /\ (0 < forward.[2] -> 90 <= yaw <= 270)
      /\ (forward.[2] < 0 -> 0 <= yaw <= 90 \/ 270 <= yaw <= 360).
Proof.
  intros forward.
  assert (H : ~ Rabs forward.[2] < 0.0001)
    by (unfold forward; simpl; rewrite Rabs_R1; lra).
  split; [exact H | exact (set_direction_yaw_halfspace forward H)].
Defined.

Lemma length_vertical (y : R) : length (Vector.mk 0 y 0) = Rabs y.
Proof.
  unfold length. cbn [Vector.get Vector.x Vector.y Vector.z].
  replace (0 * 0 + y * y + 0 * 0) with (Rsqr y) by (unfold Rsqr; ring).
  apply sqrt_Rsqr_abs.
Qed.

(** X19: a vertical forward vector [(0, y, 0)] with [|y| >= 0.0001] gets
    yaw 0 and roll 0, with pitch 90 when it points up and pitch -90 when it
    points down. *)
Theorem set_direction_vertical (y : R) :
  0.0001 <= Rabs y ->
  set_direction (Vector.mk 0 y 0) = Ok (if 0 <? y then 90 else -90, 0, 0).
Proof.
  intros Hy. unfold set_direction. cbv zeta.
  rewrite length_vertical.
  rewrite (ltb_false (Rabs y) epsilon_direction) by (unfold epsilon_direction; lra).
  rewrite truediv_ok by lra. cbn [bind Vector.get Vector.x Vector.y Vector.z].
  unfold fabs. rewrite Rabs_R0.
  rewrite (ltb_true 0 epsilon_direction) by exact epsilon_direction_pos.
  rewrite (ltb_false 0 0) by lra. rewrite (gtb_false 0 0) by lra.
  f_equal. f_equal. f_equal.
  destruct (Rlt_dec 0 y) as [Hpos | Hneg].
  - rewrite (ltb_true _ _ Hpos).
    rewrite Rabs_pos_eq by lra.
    replace (y / y) with 1 by (field; lra).
    rewrite v_clamp_inside by lra. rewrite asin_1. apply degrees_half_pi.
  - rewrite (ltb_false _ _ Hneg).
    assert (Hlt : y < 0).
    { destruct (Rle_lt_dec 0 y) as [H0 | H0]; [| exact H0].
      assert (y = 0) by lra. subst y. rewrite Rabs_R0 in Hy. lra. }
    rewrite Rabs_left by exact Hlt.
    replace (y / - y) with (-1) by (field; lra).
    rewrite v_clamp_inside by lra.
    replace (-1) with (- (1)) by ring.
    rewrite asin_opp, asin_1. apply degrees_neg_half_pi.
Qed.

Lemma set_direction_vertical_witness :
  0.0001 <= Rabs 2
  /\ set_direction (Vector.mk 0 2 0) = Ok (if 0 <? 2 then 90 else -90, 0, 0).
Proof.
  assert (H : 0.0001 <= Rabs 2) by (rewrite Rabs_pos_eq; lra).
  split; [exact H | exact (set_direction_vertical 2 H)].
Defined.

Lemma length_scale_direction (v : Vec) (k : R) :
  0 < k -> length (v *v k) = k * length v.
Proof.
  intros Hk. unfold length. cbn [Vector.get Vector.scale Vector.x Vector.y Vector.z].
  replace (Vector.x v * k * (Vector.x v * k) + Vector.y v * k * (Vector.y v * k)
           + Vector.z v * k * (Vector.z v * k))
    with (Rsqr k * (Vector.x v * Vector.x v + Vector.y v * Vector.y v
                    + Vector.z v * Vector.z v))
    by (unfold Rsqr; ring).
  rewrite sqrt_mult_alt by apply Rle_0_sqr.
  rewrite sqrt_Rsqr_abs, Rabs_pos_eq by lra. reflexivity.
Qed.

(** X20: the angles depend on the direction only: scaling a forward vector
    by [k > 0] does not change the result, as long as [|forward.z|] is at
    least 0.0001 before and after. *)
Theorem set_direction_scale (forward : Vec) (k : R) :
  0 < k ->
  ~ Rabs forward.[2] < 0.0001 ->
  ~ Rabs (forward *v k).[2] < 0.0001 ->
  set_direction (forward *v k) = set_direction forward.
Proof.
  intros Hk Hz Hzk. pose proof epsilon_direction_pos as Heps.
  pose proof (abs_z_le_length forward) as Hlz.
  pose proof (abs_z_le_length (forward *v k)) as Hlzk.
  assert (Hznz : forward.[2] <> 0) by (apply (Rabs_ge_nonzero _ _ Heps); exact Hz).
  assert (Hzknz : (forward *v k).[2] <> 0)
    by (apply (Rabs_ge_nonzero _ _ Heps); exact Hzk).
  assert (Hl : 0 < length forward) by (unfold epsilon_direction in *; lra).
  unfold set_direction. cbv zeta.
  rewrite (ltb_false (length (forward *v k)) epsilon_direction)
    by (unfold epsilon_direction in *; lra).
  rewrite (ltb_false (length forward) epsilon_direction)
    by (unfold epsilon_direction in *; lra).
  rewrite !truediv_ok by (unfold epsilon_direction in *; lra). cbn [bind].
  unfold fabs.
  rewrite (ltb_false (Rabs (forward *v k).[2]) epsilon_direction) by exact Hzk.
  rewrite (ltb_false (Rabs forward.[2]) epsilon_direction) by exact Hz.
  rewrite ?truediv_ok by assumption. cbn [bind].
  rewrite length_scale_direction by exact Hk.
  cbn [Vector.get Vector.scale Vector.x Vector.y Vector.z] in *.
  replace (Vector.y forward * k / (k * length forward))
    with (Vector.y forward / length forward) by (field; lra).
  replace (Vector.x forward * k / (Vector.z forward * k))
    with (Vector.x forward / Vector.z forward) by (field; lra).
  assert (Hsign : (Vector.z forward * k <? 0) = (Vector.z forward <? 0)).
  { destruct (Rlt_dec (Vector.z forward) 0) as [Hn | Hn].
    - rewrite (ltb_true _ _ Hn). apply ltb_true. nra.
    - rewrite (ltb_false _ _ Hn). apply ltb_false. nra. }
  rewrite Hsign. reflexivity.
Qed.

Lemma set_direction_scale_witness :
  let forward := Vector.mk 1 2 3 in
  0 < 2
  /\ ~ Rabs forward.[2] < 0.0001
  /\ ~ Rabs (forward *v 2).[2] < 0.0001
  /\ set_direction (forward *v 2) = set_direction forward.
Proof.
  intros forward.
  assert (H1 : 0 < 2) by lra.
  assert (H2 : ~ Rabs forward.[2] < 0.0001)
    by (unfold forward; simpl; rewrite Rabs_pos_eq; lra).
  assert (H3 : ~ Rabs (forward *v 2).[2] < 0.0001)
    by (unfold forward; simpl; rewrite Rabs_pos_eq; lra).
  split; [exact H1 |]. split; [exact H2 |]. split; [exact H3 |].
  exact (set_direction_scale forward 2 H1 H2 H3).
Defined.

(** ** compute_curve_intersections: the three lists *)

Lemma range_between_seq (a n : nat) :
  range_between (Z.of_nat a) (Z.of_nat n) = map Z.of_nat (seq a (n - a)).
Proof.
  unfold range_between.
  replace (Z.to_nat (Z.of_nat n - Z.of_nat a)) with (n - a)%nat by lia.
  induction (n - a)%nat as [| m IH].
  - reflexivity.
  - rewrite !seq_S, !map_app, IH. cbn [map Nat.add]. f_equal. f_equal. lia.
Qed.

Lemma test_pairs_app (ps qs : list (NavCurveSection * NavCurveSection)) :
  test_pairs (ps ++ qs)
  = match test_pairs ps with
    | Ok vs =>
        match test_pairs qs with
        | Ok ws => Ok (vs ++ ws)
        | Raise e => Raise e
        end
    | Raise e => Raise e
    end.
Proof.
  induction ps as [| [a b] ps IH]; cbn [app test_pairs].
  - destruct (test_pairs qs); reflexivity.
  - destruct (curves_intersect (curve a) (curve b) 10) as [v | e]; cbn [bind];
      [| reflexivity].
    rewrite IH. destruct (test_pairs ps) as [vs | e]; cbn [bind]; [| reflexivity].
    destruct (test_pairs qs) as [ws | e]; reflexivity.
Qed.

Lemma test_pairs_length (ps : list (NavCurveSection * NavCurveSection))
      (vs : list (option Vec)) :
  test_pairs ps = Ok vs -> List.length vs = List.length ps.
Proof.
  revert vs. induction ps as [| [a b] ps IH]; intros vs H; cbn [test_pairs] in H.
  - injection H as <-. reflexivity.
  - destruct (curves_intersect (curve a) (curve b) 10) as [v | e]; cbn [bind] in H;
      [| discriminate].
    destruct (test_pairs ps) as [ws | e]; cbn [bind] in H; [| discriminate].
    injection H as <-. cbn [List.length]. f_equal. apply IH. reflexivity.
Qed.

Lemma combine_append {A B : Type} (l1 l2 : list A) (m1 m2 : list B) :
  List.length l1 = List.length m1 ->
  combine (l1 ++ l2) (m1 ++ m2) = combine l1 m1 ++ combine l2 m2.
Proof.
  revert m1. induction l1 as [| a l1 IH]; intros [| b m1] Hl;
    cbn [List.length] in Hl; try discriminate.
  - reflexivity.
  - cbn [app combine]. f_equal. apply IH. lia.
Qed.

Lemma crossings_app (ps qs : list (NavCurveSection * NavCurveSection))
      (vs ws : list (option Vec)) :
  List.length vs = List.length ps ->
  crossings (ps ++ qs) (vs ++ ws) = crossings ps vs ++ crossings qs ws.
Proof.
  intros Hl. unfold crossings.
  rewrite combine_append by (symmetry; exact Hl). apply flat_map_app.
Qed.

(** The loop over [curve_index], started at index [b], tests the section
    against the sections from index [b] on. *)
Lemma cross_loop (sections : list NavCurveSection) (s : NavCurveSection) :
  forall (rest : list NavCurveSection) (b : nat) (d : CurveDict)
         (printed : list (option Vec)),
    (forall k, (k < List.length rest)%nat -> nth (b + k) sections s = nth k rest s) ->
    for_each (cross_body sections s) (map Z.of_nat (seq b (List.length rest)))
             (d, printed)
    = match test_pairs (map (pair s) rest) with
      | Ok vs =>
          Ok (Continue ({| START := START d; END := END d;
                           CROSS := CROSS d ++ crossings (map (pair s) rest) vs |},
                        printed ++ vs))
      | Raise e => Raise e
      end.
Proof.
  induction rest as [| c rest IH]; intros b d printed Hnth.
  - cbn. rewrite !app_nil_r. destruct d; reflexivity.
  - cbn [List.length seq map for_each test_pairs].
    unfold cross_body at 1. rewrite Nat2Z.id.
    pose proof (Hnth 0%nat) as H0. rewrite Nat.add_0_r in H0.
    rewrite H0 by (cbn; lia). cbn [nth].
    destruct (curves_intersect (curve s) (curve c) 10) as [v | e]; cbn [bind];
      [| reflexivity].
    assert (Hnth' : forall k, (k < List.length rest)%nat ->
                              nth (S b + k) sections s = nth k rest s).
    { intros k Hk. replace (S b + k)%nat with (b + S k)%nat by lia.
      rewrite Hnth by (cbn; lia). reflexivity. }
    destruct v as [point |]; rewrite (IH (S b) _ _ Hnth');
      destruct (test_pairs (map (pair s) rest)) as [vs | e]; cbn [bind];
      try reflexivity.
    + unfold crossings. cbn [combine flat_map snd fst append_CROSS START END CROSS].
      rewrite <- !app_assoc. reflexivity.
    + unfold crossings. cbn [combine flat_map snd fst app].
      rewrite <- !app_assoc. reflexivity.
Qed.

Lemma marker_entries_cons (prop : NavCurveSection -> prop_value)
      (s : NavCurveSection) (rest : list NavCurveSection) :
  marker_entries prop (s :: rest)
  = (if ne_minus_one (prop s) then [(s, None, inl 0%Z)] else [])
      ++ marker_entries prop rest.
Proof.
  unfold marker_entries. cbn [filter].
  destruct (ne_minus_one (prop s)); reflexivity.
Qed.

(** The loop over the sections, started at the section after [pre]. *)
Lemma section_loop (sections : list NavCurveSection) :
  forall (post pre : list NavCurveSection) (d : CurveDict)
         (printed : list (option Vec)),
    sections = pre ++ post ->
    for_each (section_body sections)
             (combine (map Z.of_nat (seq (List.length pre) (List.length post))) post)
             (d, printed)
    = match test_pairs (pairs post) with
      | Ok vs =>
          Ok (Continue ({| START := START d ++ marker_entries NextCurves post;
                           END := END d ++ marker_entries PrevCurves post;
                           CROSS := CROSS d ++ crossings (pairs post) vs |},
                        printed ++ vs))
      | Raise e => Raise e
      end.
Proof.
  induction post as [| s rest IH]; intros pre d printed Hs.
  - cbn. rewrite !app_nil_r. destruct d; reflexivity.
  - cbn [List.length seq map combine for_each pairs].
    unfold section_body at 1.
    replace (Z.of_nat (List.length pre) + 1)%Z with (Z.of_nat (S (List.length pre)))
      by lia.
    rewrite range_between_seq.
    replace (List.length sections - S (List.length pre))%nat with (List.length rest)
      by (rewrite Hs, length_app; cbn [List.length]; lia).
    rewrite cross_loop.
    2:{ intros k Hk. rewrite Hs.
        rewrite app_nth2 by lia.
        replace (S (List.length pre) + k - List.length pre)%nat with (S k) by lia.
        reflexivity. }
    rewrite test_pairs_app.
    destruct (test_pairs (map (pair s) rest)) as [vs | e] eqn:Hvs; [| reflexivity].
    pose proof (IH (pre ++ [s])) as IH'.
    replace (List.length (pre ++ [s])) with (S (List.length pre)) in IH'
      by (rewrite length_app; cbn [List.length]; lia).
    rewrite IH' by (rewrite Hs, <- app_assoc; reflexivity).
    destruct (test_pairs (pairs rest)) as [ws | e]; [| reflexivity].
    rewrite crossings_app by (apply test_pairs_length; exact Hvs).
    rewrite !marker_entries_cons.
    destruct (ne_minus_one (NextCurves s)), (ne_minus_one (PrevCurves s));
      cbn [append_START append_END START END CROSS];
      rewrite <- ?app_assoc; reflexivity.
Qed.

Lemma compute_curve_intersections_spec (sections : list NavCurveSection) :
  compute_curve_intersections sections
  = match test_pairs (pairs sections) with
    | Ok vs =>
        Ok ({| START := marker_entries NextCurves sections;
               END := marker_entries PrevCurves sections;
               CROSS := crossings (pairs sections) vs |}, vs)
    | Raise e => Raise e
    end.
Proof.
  unfold compute_curve_intersections, enumerate, range. cbv zeta.
  rewrite Nat2Z.id.
  rewrite (section_loop sections sections [] _ _ eq_refl).
  destruct (test_pairs (pairs sections)) as [vs | e]; reflexivity.
Qed.

Lemma test_pairs_forall2 (ps : list (NavCurveSection * NavCurveSection))
      (vs : list (option Vec)) :
  test_pairs ps = Ok vs ->
  Forall2 (fun ab v => curves_intersect (curve (fst ab)) (curve (snd ab)) 10 = Ok v)
          ps vs.
Proof.
  revert vs. induction ps as [| [a b] ps IH]; intros vs H; cbn [test_pairs] in H.
  - injection H as <-. constructor.
  - destruct (curves_intersect (curve a) (curve b) 10) as [v | e] eqn:Hv;
      cbn [bind] in H; [| discriminate].
    destruct (test_pairs ps) as [ws | e]; cbn [bind] in H; [| discriminate].
    injection H as <-. constructor; [exact Hv | apply IH; reflexivity].
Qed.

Lemma pairs_length {A : Type} (l : list A) :
  (2 * List.length (pairs l) = List.length l * (List.length l - 1))%nat.
Proof.
  induction l as [| a l IH]; cbn [pairs List.length].
  - reflexivity.
  - rewrite length_app, length_map. nia.
Qed.

(** X21: when [compute_curve_intersections] returns, the START list holds
    [(section, None, 0)] for exactly the sections whose "NextCurves" is not
    -1, in the order of the input, and the END list the same for
    "PrevCurves". *)
Theorem compute_curve_intersections_markers
        (sections : list NavCurveSection) (d : CurveDict) (printed : list (option Vec)) :
  compute_curve_intersections sections = Ok (d, printed) ->
  START d = map (fun s => (s, None, inl 0%Z))
                (filter (fun s => ne_minus_one (NextCurves s)) sections)
  /\ END d = map (fun s => (s, None, inl 0%Z))
                 (filter (fun s => ne_minus_one (PrevCurves s)) sections).
Proof.
  rewrite compute_curve_intersections_spec.
  destruct (test_pairs (pairs sections)) as [vs | e]; [| discriminate].
  intros H. injection H as <- _. split; reflexivity.
Qed.

(** X22: when [compute_curve_intersections] returns, it has called
    [curves_intersect] with 10 parts once on every pair of an earlier and a
    later section, in the order of the two loops, which makes n (n - 1) / 2
    calls for n sections; the CROSS list holds
    [(section, later section, point)] for exactly the pairs that gave a
    point, in that order. *)
Theorem compute_curve_intersections_cross
        (sections : list NavCurveSection) (d : CurveDict) (printed : list (option Vec)) :
  compute_curve_intersections sections = Ok (d, printed) ->
  Forall2 (fun ab v => curves_intersect (curve (fst ab)) (curve (snd ab)) 10 = Ok v)
          (pairs sections) printed
  /\ (2 * List.length printed = List.length sections * (List.length sections - 1))%nat
  /\ CROSS d = crossings (pairs sections) printed.
Proof.
  rewrite compute_curve_intersections_spec.
  destruct (test_pairs (pairs sections)) as [vs | e] eqn:Hvs; [| discriminate].
  intros H. injection H as <- <-.
  split; [apply test_pairs_forall2; exact Hvs |].
  split; [| reflexivity].
  rewrite (test_pairs_length _ _ Hvs). apply pairs_length.
Qed.

Lemma test_pairs_raises (ps : list (NavCurveSection * NavCurveSection)) :
  test_pairs ps = Raise ZeroDivisionError
  <-> exists a b,
      In (a, b) ps
      /\ curves_intersect (curve a) (curve b) 10 = Raise ZeroDivisionError.
Proof.
  induction ps as [| [a b] ps IH]; cbn [test_pairs].
  - split; [discriminate | intros (a & b & [] & _)].
  - destruct (curves_intersect (curve a) (curve b) 10) as [v | e] eqn:Hv; cbn [bind].
    + destruct (test_pairs ps) as [vs | e]; cbn [bind].
      * split; [discriminate |].
        intros (a' & b' & [E | Hin] & Hr).
        -- injection E as <- <-. rewrite Hv in Hr. discriminate.
        -- assert (Hx : Ok vs = Raise ZeroDivisionError)
             by (apply IH; exists a', b'; split; assumption).
           discriminate.
      * destruct e. split.
        -- intros _. destruct (proj1 IH eq_refl) as (a' & b' & Hin & Hr).
           exists a', b'. split; [right; exact Hin | exact Hr].
        -- intros _. reflexivity.
    + destruct e. split.
      * intros _. exists a, b. split; [left; reflexivity | exact Hv].
      * intros _. reflexivity.
Qed.

Lemma in_pairs {A : Type} (l : list A) (a b : A) :
  In (a, b) (pairs l) -> In a l /\ In b l.
Proof.
  induction l as [| x l IH]; cbn [pairs].
  - intros [].
  - intros H. apply in_app_or in H. destruct H as [H | H].
    + apply in_map_iff in H. destruct H as (y & E & Hy).
      injection E as <- <-. split; [left; reflexivity | right; exact Hy].
    + destruct (IH H) as [Ha Hb]. split; right; assumption.
Qed.

Lemma member_in_pair {A : Type} (l : list A) (s : A) :
  In s l -> (2 <= List.length l)%nat ->
  exists a b, In (a, b) (pairs l) /\ (s = a \/ s = b).
Proof.
  destruct l as [| x l]; [intros [] |].
  intros Hin Hlen. cbn [pairs]. destruct Hin as [E | Hin].
  - subst x. destruct l as [| y l]; [cbn in Hlen; lia |].
    exists s, y. split; [| left; reflexivity].
    apply in_or_app. left. left. reflexivity.
  - exists x, s. split; [| right; reflexivity].
    apply in_or_app. left. apply in_map. exact Hin.
Qed.

(** X23: [compute_curve_intersections] raises [ZeroDivisionError] exactly
    when there are at least two sections and one of them has "Length" 0; in
    every other case it returns. *)
Theorem compute_curve_intersections_raises_iff (sections : list NavCurveSection) :
  compute_curve_intersections sections = Raise ZeroDivisionError
  <-> ((2 <= List.length sections)%nat
       /\ exists s, In s sections /\ Length (curve s) = 0).
Proof.
  rewrite compute_curve_intersections_spec. split.
  - intros H.
    destruct (test_pairs (pairs sections)) as [vs | e] eqn:Hvs; [discriminate |].
    destruct e.
    destruct (proj1 (test_pairs_raises _) Hvs) as (a & b & Hin & Hr).
    destruct (in_pairs _ _ _ Hin) as [Ha Hb].
    split.
    + pose proof (pairs_length sections) as Hl.
      destruct (pairs sections) as [| p ps]; [destruct Hin |].
      cbn [List.length] in Hl. nia.
    + destruct (Req_dec_T (Length (curve a)) 0) as [Ea | Na];
        [exists a; split; assumption |].
      destruct (Req_dec_T (Length (curve b)) 0) as [Eb | Nb];
        [exists b; split; assumption |].
      destruct (curves_intersect_ok (curve a) (curve b) 10) as [v Hv];
        [lia | exact Na | exact Nb |].
      rewrite Hv in Hr. discriminate.
  - intros (Hlen & s & Hin & Hz).
    destruct (member_in_pair _ _ Hin Hlen) as (a & b & Hp & Hs).
    assert (Hr : test_pairs (pairs sections) = Raise ZeroDivisionError).
    { apply test_pairs_raises. exists a, b. split; [exact Hp |].
      apply curves_intersect_zero_length; [lia |].
      destruct Hs as [E | E]; subst s; [left | right]; exact Hz. }
    rewrite Hr. reflexivity.
Qed.

Lemma compute_curve_intersections_markers_witness :
  let s := first_section curve_east in
  let d := {| START := [(s, None, inl 0%Z)]; END := []; CROSS := [] |} in
  compute_curve_intersections [s] = Ok (d, [])
  /\ START d = map (fun s => (s, None, inl 0%Z))
                   (filter (fun s => ne_minus_one (NextCurves s)) [s])
  /\ END d = map (fun s => (s, None, inl 0%Z))
                 (filter (fun s => ne_minus_one (PrevCurves s)) [s]).
Proof.
  intros s d.
  assert (H : compute_curve_intersections [s] = Ok (d, []))
    by (rewrite compute_curve_intersections_spec; reflexivity).
  split; [exact H | exact (compute_curve_intersections_markers [s] d [] H)].
Defined.

Lemma curve_east_level (t : R) : (curve_point curve_east t).[2] = 0.
Proof.
  unfold curve_point, smooth_curve, evaluate_bezier_curve, compute_bernstein.
  simpl. ring.
Qed.

Lemma curve_east_shifted_level (t : R) : (curve_point curve_east_shifted t).[2] = 1.
Proof.
  unfold curve_point, smooth_curve, evaluate_bezier_curve, compute_bernstein.
  simpl. ring.
Qed.

Lemma parallel_curves_no_crossing :
  curves_intersect curve_east curve_east_shifted 10 = Ok None.
Proof.
  unfold curves_intersect. cbv zeta.
  rewrite !truediv_ok by lra. cbn [bind].
  unfold range at 1.
  change 0 with (pos_at (Length curve_east / IZR 10) 0) at 1.
  rewrite (outer_loop_skips curve_east curve_east_shifted 10).
  - reflexivity.
  - simpl. lra.
  - simpl. lra.
  - intros i j s1 e1 s2 e2 _ _ H1 H2.
    destruct (chord_ok_inv _ _ _ _ _ _ H1) as [-> ->].
    destruct (chord_ok_inv _ _ _ _ _ _ H2) as [-> ->].
    left. unfold denom_of.
    rewrite !curve_east_level, !curve_east_shifted_level.
    replace ((1 - 1) * _ - _ * (0 - 0)) with 0 by ring.
    rewrite Rabs_R0. lra.
Qed.

Lemma compute_curve_intersections_cross_witness :
  let sections := [unlinked curve_east; unlinked curve_east_shifted] in
  let d := {| START := []; END := []; CROSS := [] |} in
  compute_curve_intersections sections = Ok (d, [None])
  /\ Forall2 (fun ab v => curves_intersect (curve (fst ab)) (curve (snd ab)) 10 = Ok v)
             (pairs sections) [None]
  /\ (2 * List.length [@None Vec]
      = List.length sections * (List.length sections - 1))%nat
  /\ CROSS d = crossings (pairs sections) [None].
Proof.
  intros sections d.
  assert (H : compute_curve_intersections sections = Ok (d, [None])).
  { rewrite compute_curve_intersections_spec.
    cbn [sections pairs map app test_pairs unlinked curve].
    rewrite parallel_curves_no_crossing. reflexivity. }
  split; [exact H | exact (compute_curve_intersections_cross sections d [None] H)].
Defined.

(** X24: with fewer than two sections nothing is tested: the function
    returns, whatever the "Length" values are, with an empty CROSS list and
    nothing printed. *)
Theorem compute_curve_intersections_few (sections : list NavCurveSection) :
  (List.length sections <= 1)%nat ->
  compute_curve_intersections sections
  = Ok ({| START := marker_entries NextCurves sections;
           END := marker_entries PrevCurves sections;
           CROSS := [] |}, []).
Proof.
  intros Hl. rewrite compute_curve_intersections_spec.
  destruct sections as [| s [| s' rest]]; [reflexivity | reflexivity |].
  cbn [List.length] in Hl. lia.
Qed.

Lemma compute_curve_intersections_few_witness :
  (List.length [unlinked (with_length curve_east 0)] <= 1)%nat
  /\ compute_curve_intersections [unlinked (with_length curve_east 0)]
     = Ok ({| START := marker_entries NextCurves [unlinked (with_length curve_east 0)];
              END := marker_entries PrevCurves [unlinked (with_length curve_east 0)];
              CROSS := [] |}, []).
Proof.
  assert (H : (List.length [unlinked (with_length curve_east 0)] <= 1)%nat)
    by (cbn; lia).
  split; [exact H |].
  exact (compute_curve_intersections_few [unlinked (with_length curve_east 0)] H).
Defined.
